(** * WhatsApp-to-Spotify playlist builder: a shallow embedding of [main.py]

    The Python functions of [src/main.py] are rendered as Rocq functions:
    [str] values are [string]s holding the UTF-8 bytes of the text (the
    transcript is read with [encoding="utf8"]), Python lists are [list]s,
    the [set] used by
    [obtain_new_tracks] is a [gset string], uncaught Python exceptions are
    an explicit [Raised] outcome, and the HTTP requests issued against the
    Spotify API are recorded as a trace of submitted batches. *)

From stdpp Require Import base list strings gmap.
From Stdlib Require Import ZArith Lia Ascii.

(** ** Outcomes of Python code *)

(** The exceptions the modelled code can raise. *)
Inductive exn : Set := IndexError | KeyError.

(** A call either returns, raises, or (for the fuel-bounded loops of this
    file only) exhausts its fuel.  The totality lemmas below show that the
    last outcome never occurs with the fuel the entry points supply. *)
Inductive result (A : Type) : Type :=
| Returned (a : A)
| Raised (e : exn)
| OutOfFuel.
Arguments Returned {A} a.
Arguments Raised {A} e.
Arguments OutOfFuel {A}.

(** Sequencing: an exception (or fuel exhaustion) skips the rest.  These
    instances give [result] stdpp's [x ← r; k] notation. *)
#[global] Instance result_ret : MRet result := λ A a, Returned a.
#[global] Instance result_bind : MBind result := λ A B k r,
  match r with
  | Returned a => k a
  | Raised e => Raised e
  | OutOfFuel => OutOfFuel
  end.
#[global] Instance result_fmap : FMap result := λ A B f r,
  match r with
  | Returned a => Returned (f a)
  | Raised e => Raised e
  | OutOfFuel => OutOfFuel
  end.

(** [l[n]] for a non-negative index [n]. *)
Definition index {A} (l : list A) (n : nat) : result A :=
  match l !! n with
  | Some x => Returned x
  | None => Raised IndexError
  end.

(** [for x in l: acc = body(acc, x)], stopping at the first exception. *)
Fixpoint for_each {A S} (body : S → A → result S) (acc : S) (l : list A) : result S :=
  match l with
  | [] => Returned acc
  | x :: l' => acc' ← body acc x; for_each body acc' l'
  end.

(** ** Python [str] and [list] built-ins *)

Module Str.

(** [sub in s] *)
Fixpoint contains (sub s : string) : bool :=
  String.prefix sub s ||
  match s with
  | EmptyString => false
  | String _ s' => contains sub s'
  end.

(** [s.split(sep)] for a non-empty [sep].  The scan goes left to right;
    when [sep] starts at the current position a new piece begins and the
    remaining [length sep - 1] characters of the separator are skipped
    ([skip] counts them). *)
Fixpoint split_from (sep : string) (skip : nat) (s : string) : list string :=
  match s with
  | EmptyString => [""]
  | String c s' =>
      match skip with
      | S k => split_from sep k s'
      | O =>
          if String.prefix sep s
          then "" :: split_from sep (String.length sep - 1) s'
          else match split_from sep 0 s' with
               | piece :: pieces => String c piece :: pieces
               | [] => [String c ""]
               end
      end
  end.

Definition split (sep s : string) : list string := split_from sep 0 s.

(** [s.count(sub)] for a non-empty [sub]: non-overlapping occurrences,
    scanned left to right. *)
Fixpoint count_from (sub : string) (skip : nat) (s : string) : nat :=
  match s with
  | EmptyString => 0
  | String _ s' =>
      match skip with
      | S k => count_from sub k s'
      | O =>
          if String.prefix sub s
          then S (count_from sub (String.length sub - 1) s')
          else count_from sub 0 s'
      end
  end.

Definition count (sub s : string) : nat := count_from sub 0 s.

(** [''.join(l)] *)
Definition join (l : list string) : string := foldr String.append "" l.

(** A byte of the form [10xxxxxx] continues a character begun by an
    earlier byte. *)
Definition is_continuation (c : ascii) : bool :=
  match c with
  | Ascii _ _ _ _ _ _ b6 b7 => b7 && negb b6
  end.

(** [len(s)]: Python counts characters (code points), that is, the bytes
    that are not continuation bytes. *)
Fixpoint len (s : string) : nat :=
  match s with
  | EmptyString => 0
  | String c s' => (if is_continuation c then 0 else 1) + len s'
  end.

(** [s.replace(sub, '')] for a non-empty [sub]: the occurrences found by
    the same left-to-right scan are left out. *)
Fixpoint remove_from (sub : string) (skip : nat) (s : string) : string :=
  match s with
  | EmptyString => EmptyString
  | String c s' =>
      match skip with
      | S k => remove_from sub k s'
      | O =>
          if String.prefix sub s
          then remove_from sub (String.length sub - 1) s'
          else String c (remove_from sub 0 s')
      end
  end.

Definition remove (sub s : string) : string := remove_from sub 0 s.

(** [s[n:]] *)
Fixpoint skip_chars (n : nat) (s : string) : string :=
  match n, s with
  | S n', String _ s' => skip_chars n' s'
  | _, _ => s
  end.

(** [sep.join(l)], the inverse of [split]. *)
Fixpoint join_with (sep : string) (l : list string) : string :=
  match l with
  | [] => ""
  | [piece] => piece
  | piece :: pieces => piece +:+ sep +:+ join_with sep pieces
  end.

End Str.

(** [l[a:b]] and [l[a:b] = new] for [0 <= a <= b]. *)
Definition slice {A} (l : list A) (a b : nat) : list A := take (b - a) (drop a l).
Definition slice_assign {A} (l : list A) (a b : nat) (new : list A) : list A :=
  take a l ++ new ++ drop b l.

(** ** [format_whatsapp_conversation] *)

(** *** [replace_enters] *)

(** [x.replace('\n', ' ')]: every line feed becomes a space. *)
Fixpoint replace_newline (x : string) : string :=
  match x with
  | EmptyString => EmptyString
  | String c x' =>
      String (if Ascii.eqb c (Ascii.ascii_of_nat 10) then " "%char else c)
        (replace_newline x')
  end.

Definition replace_enters (raw_text : list string) : list string :=
  map replace_newline raw_text.

(** *** [format_messages] *)

(** [text[i+1].split(',')[0]]: the part of a fragment before its first comma. *)
Definition date_element (fragment : string) : string :=
  hd "" (Str.split "," fragment).

(** The date criterion of the inner loop:
    [len(e) <= 8 and e.count('/') == 2]. *)
Definition date_criteria (e : string) : bool :=
  (Str.len e <=? 8)%nat && (Str.count "/" e =? 2)%nat.

Definition is_date_start (fragment : string) : bool :=
  date_criteria (date_element fragment).

(** The loop variables [text], [length] and [i].  [length] starts at
    [len(text) - 2] and so can be negative; [i] only ever counts up from 0. *)
Record fm_state := FmState { fm_text : list string; fm_length : Z; fm_i : nat }.

(** [text[i:i+2] = [''.join(text[i:i+2])]; length -= 1] *)
Definition merge_step (st : fm_state) : fm_state :=
  FmState
    (slice_assign (fm_text st) (fm_i st) (fm_i st + 2)
       [Str.join (slice (fm_text st) (fm_i st) (fm_i st + 2))])
    (fm_length st - 1) (fm_i st).

(** [while c == False: ...]: reads [text[i+1]] without a bounds check,
    leaves at the first fragment that meets the date criterion, and merges
    [text[i]] and [text[i+1]] otherwise. *)
Fixpoint inner_loop (fuel : nat) (st : fm_state) : result fm_state :=
  match fuel with
  | O => OutOfFuel
  | S fuel' =>
      next ← index (fm_text st) (fm_i st + 1);
      if is_date_start next
      then Returned (FmState (fm_text st) (fm_length st) (fm_i st + 1))
      else inner_loop fuel' (merge_step st)
  end.

(** [while i <= length: ...] *)
Fixpoint outer_loop (fuel : nat) (st : fm_state) : result (list string) :=
  match fuel with
  | O => OutOfFuel
  | S fuel' =>
      if (Z.of_nat (fm_i st) <=? fm_length st)%Z
      then st' ← inner_loop (S (length (fm_text st))) st; outer_loop fuel' st'
      else Returned (fm_text st)
  end.

Definition format_messages (text : list string) : result (list string) :=
  outer_loop (S (length text)) (FmState text (Z.of_nat (length text) - 2) 0).

(** *** [convert_to_dataframe] *)

(** [if len(s) > 2: s[1:] = [''.join(s[1:])]] *)
Definition merge_tail (s : list string) : list string :=
  if (2 <? length s)%nat
  then slice_assign s 1 (length s) [Str.join (drop 1 s)]
  else s.

(** One row of the data frame: [(Date, Time, Sender, Message)]. *)
Record message := Message { Date : string; Time : string; Sender : string; Body : string }.

(** The body of the [for i in range(len(text))] loop, for [text[i] = record]. *)
Definition tokenize (record : string) : result message :=
  let s1 := merge_tail (Str.split ", " record) in
  rest1 ← index s1 1;
  let s2 := merge_tail (Str.split " - " rest1) in
  rest2 ← index s2 1;
  let s3 := Str.split ": " rest2 in
  s3 ← (if (length s3 =? 1)%nat then only ← index s3 0; Returned [""; only]
        else Returned s3);
  let s3 := merge_tail s3 in
  date ← index s1 0;
  time ← index s2 0;
  sender ← index s3 0;
  body ← index s3 1;
  Returned (Message date time sender body).

(** The four column lists grow in lockstep and are zipped at the end, so
    the data frame is the list of rows in record order. *)
Definition convert_to_dataframe (text : list string) : result (list message) :=
  for_each (λ rows record, row ← tokenize record; Returned (rows ++ [row])) [] text.

(** ** [convert_url_to_uri] and [convert_albums_to_tracks] *)

(** The JSON object answered by [GET /v1/albums/{id}], as far as the code
    reads it: the ['tracks'] entry (indexed, so its absence is a
    [KeyError]), its optional ['items'] list, and each item's optional
    ['id']. *)
Record album_item := AlbumItem { item_id : option string }.
Record album_dict := AlbumDict { tracks_items : option (option (list album_item)) }.

(** [f'spotify:track:{item.get("id")}']; a missing id is formatted as [None]. *)
Definition track_uri_of_item (item : album_item) : string :=
  "spotify:track:" +:+ default "None" (item_id item).

(** [album_uri.split(":")[-1]] *)
Definition album_id (album_uri : string) : string :=
  List.last (Str.split ":" album_uri) "".

Definition convert_albums_to_tracks (catalog : string → album_dict)
    (uri_list : list string) : result (list string) :=
  let track_uri_list := filter (λ x, Str.contains "track" x = true) uri_list in
  let album_uri_list := filter (λ x, Str.contains "album" x = true) uri_list in
  for_each
    (λ track_uri_list album_uri,
       match tracks_items (catalog (album_id album_uri)) with
       | None => Raised KeyError
       | Some items =>
           Returned (track_uri_list ++ map track_uri_of_item (default [] items))
       end)
    track_uri_list album_uri_list.

(** The body of the [for url in url_list] loop. *)
Definition url_to_uri (url : string) : result string :=
  sub_string_1 ← index (Str.split "https://open.spotify.com/" url) 1;
  let sub_string_2 := Str.split "/" sub_string_1 in
  with_query ← index sub_string_2 1;
  sub_string_3 ← index (Str.split "?" with_query) 0;
  kind ← index sub_string_2 0;
  Returned ("spotify:" +:+ kind +:+ ":" +:+ sub_string_3).

(** [ALBUMS] is the flag [p.ALBUMS] of the parameters module. *)
Definition convert_url_to_uri (ALBUMS : bool) (catalog : string → album_dict)
    (url_list : list string) : result (list string) :=
  uri_list ← for_each (λ uri_list url, uri ← url_to_uri url; Returned (uri_list ++ [uri]))
                [] url_list;
  if ALBUMS then convert_albums_to_tracks catalog uri_list else Returned uri_list.

(** ** [create_playlist] *)

(** [list(set(tracks) - set(already_added_tracks))].  The order in which a
    Python set is listed is unspecified; [elements] stands for it. *)
Definition obtain_new_tracks (tracks already_added_tracks : list string) : list string :=
  elements ((list_to_set tracks : gset string) ∖ list_to_set already_added_tracks).

(** The requests that change the account, in the order they are sent. *)
Inductive request : Type :=
| CreatePlaylist
| AddItems (uris : list string).

(** [while counter*100 <= len(tracks): make_request(tracks[counter*100:(counter+1)*100]); counter += 1]
    with the batches sent so far in [sent]. *)
Fixpoint batch_loop (fuel : nat) (tracks : list string) (counter : nat)
    (sent : list (list string)) : result (list (list string)) :=
  match fuel with
  | O => OutOfFuel
  | S fuel' =>
      if (counter * 100 <=? length tracks)%nat
      then batch_loop fuel' tracks (counter + 1)
             (sent ++ [slice tracks (counter * 100) ((counter + 1) * 100)])
      else Returned sent
  end.

(** The [uris] payloads of the [make_request] calls, in order. *)
Definition add_items_to_playlist (tracks : list string) : result (list (list string)) :=
  if (length tracks <=? 100)%nat
  then Returned [tracks]
  else batch_loop (S (length tracks)) tracks 0 [].

(** What the account answers: the playlist names of [get_users_playlists]
    and the track URIs of [get_playlist_items]. *)
Record account := Account { playlist_names : list string; playlist_items : list string }.

(** [PLAYLIST_NAME] is [p.PLAYLIST_NAME]; the result is the trace of
    account-changing requests. *)
Definition create_playlist (PLAYLIST_NAME : string) (acct : account)
    (tracks : list string) : result (list request) :=
  if bool_decide (PLAYLIST_NAME ∈ playlist_names acct)
  then
    let current_tracks_in_playlist := playlist_items acct in
    let tracks := obtain_new_tracks tracks current_tracks_in_playlist in
    match tracks with
    | _ :: _ => batches ← add_items_to_playlist tracks; Returned (map AddItems batches)
    | [] => Returned []
    end
  else
    batches ← add_items_to_playlist tracks;
    Returned (CreatePlaylist :: map AddItems batches).

(** ** The rest of the pipeline *)

(** [format_whatsapp_conversation]: the three steps in sequence. *)
Definition format_whatsapp_conversation (raw_text : list string) : result (list message) :=
  text ← format_messages (replace_enters raw_text);
  convert_to_dataframe text.

(** A pandas data frame as far as the code looks at it: [pd.DataFrame()]
    has no columns at all, any other frame met here has the four columns
    of [convert_to_dataframe] and its rows in order. *)
Inductive frame : Type :=
| NoColumns
| Frame (rows : list message).

(** [spotify_df.append(df_temp, ignore_index=True)], as pandas before 2.0
    provides it: the rows of [df_temp] follow those of [spotify_df], and
    the result has the columns of [df_temp]. *)
Definition frame_append (spotify_df : frame) (df_temp : list message) : frame :=
  match spotify_df with
  | NoColumns => Frame df_temp
  | Frame rows => Frame (rows ++ df_temp)
  end.

(** The settings read from the parameters module [p]. *)
Record parameters := Parameters {
  TRACKS : bool;
  ALBUMS : bool;
  TRACK_URL : string;
  ALBUM_URL : string;
  PLAYLIST_NAME : string
}.

(** [select_rows].  [str_contains pat s] stands for the pandas test
    [Series.str.contains(pat)] on one value [s]; it is a parameter because
    pandas reads [pat] as a regular expression. *)
Definition select_rows (str_contains : string → string → bool) (p : parameters)
    (df : list message) : frame :=
  let spotify_df := NoColumns in
  let spotify_df :=
    if TRACKS p
    then frame_append spotify_df
           (filter (λ row, str_contains (TRACK_URL p) (Body row) = true) df)
    else spotify_df in
  let spotify_df :=
    if ALBUMS p
    then frame_append spotify_df
           (filter (λ row, str_contains (ALBUM_URL p) (Body row) = true) df)
    else spotify_df in
  spotify_df.

(** The links of one message: [[j for j in value.split(' ') if 'https://' in j]]. *)
Definition urls_of_message (value : string) : list string :=
  filter (λ j, Str.contains "https://" j = true) (Str.split " " value).

(** [obtain_all_urls]: [df['Message']] needs the column to exist; the two
    nested loops append the links message by message. *)
Definition obtain_all_urls (df : frame) : result (list string) :=
  match df with
  | NoColumns => Raised KeyError
  | Frame rows => Returned (concat (map (λ row, urls_of_message (Body row)) rows))
  end.

(** One entry of [playlist_dict['items']], as far as the code reads it. *)
Record playlist_entry := PlaylistEntry {
  entry_name : option string;
  entry_id : option string
}.

(** The list comprehension of [get_users_playlists], on the optional
    ['items'] list of the answer; a missing name is [None]. *)
Definition get_users_playlists (items : option (list playlist_entry)) : list (option string) :=
  map entry_name (default [] items).

(** [obtain_playlist_id]: the id of the first entry with the given name;
    falling off the loop returns [None], as a missing id does. *)
Definition obtain_playlist_id (items : option (list playlist_entry)) (name : string)
    : option string :=
  (fix loop (entries : list playlist_entry) : option string :=
     match entries with
     | [] => None
     | item :: entries' =>
         if bool_decide (entry_name item = Some name)
         then entry_id item
         else loop entries'
     end) (default [] items).

(** [main], from the lines of the transcript on. *)
Definition main (str_contains : string → string → bool) (p : parameters)
    (catalog : string → album_dict) (acct : account) (raw_text : list string)
    : result (list request) :=
  text_df ← format_whatsapp_conversation raw_text;
  let spotify_df := select_rows str_contains p text_df in
  spotify_url_list ← obtain_all_urls spotify_df;
  spotify_uri_list ← convert_url_to_uri (ALBUMS p) catalog spotify_url_list;
  create_playlist (PLAYLIST_NAME p) acct spotify_uri_list.

(** ** Closed forms and predicates used in the statements *)

(** What the two nested loops compute, by recursion on the fragments after
    the cursor: [cur] is [text[i]], [rest] is [text[i+1:]], and [merged]
    tells whether the inner loop has just merged (it then reads
    [text[i+1]] again without consulting [length]). *)
Fixpoint reassemble (cur : string) (rest : list string) (merged : bool)
    : result (list string) :=
  match rest with
  | [] => if merged then Raised IndexError else Returned [cur]
  | next :: rest' =>
      if is_date_start next
      then cons cur <$> reassemble next rest' false
      else reassemble (cur +:+ next) rest' true
  end.

(** The loop state with [done] before the cursor, [cur] under it and
    [rest] after it. *)
Definition at_cursor (done : list string) (cur : string) (rest : list string) : fm_state :=
  FmState (done ++ cur :: rest)
    (Z.of_nat (length (done ++ cur :: rest)) - 2) (length done).

(** The text a split leaves for the next one: the pieces after the first
    separator, glued together by [merge_tail] without the separators. *)
Definition rest_after (sep s : string) : string :=
  Str.join (drop 1 (Str.split sep s)).

(** The two separators [tokenize] indexes past without a guard. *)
Definition has_separators (record : string) : bool :=
  Str.contains ", " record && Str.contains " - " (rest_after ", " record).

(** The host prefix [url_to_uri] splits on. *)
Definition host : string := "https://open.spotify.com/".

(** [url.split('https://open.spotify.com/')[1]], when it exists. *)
Definition after_host (url : string) : string := nth 1 (Str.split host url) "".

(** The two pieces [url_to_uri] indexes without a guard: the text after
    the host prefix, and the text after the first ['/'] in it. *)
Definition link_shape (url : string) : bool :=
  Str.contains host url && Str.contains "/" (after_host url).

(** The track URIs one album contributes. *)
Definition album_tracks (catalog : string → album_dict) (album_uri : string) : list string :=
  match tracks_items (catalog (album_id album_uri)) with
  | Some items => map track_uri_of_item (default [] items)
  | None => []
  end.

(** [tracks[counter*100:(counter+1)*100]] *)
Definition chunk (tracks : list string) (counter : nat) : list string :=
  slice tracks (counter * 100) ((counter + 1) * 100).

(** The batches [add_items_to_playlist] sends. *)
Definition batches (tracks : list string) : list (list string) :=
  if (length tracks <=? 100)%nat
  then [tracks]
  else map (chunk tracks) (seq 0 (length tracks / 100 + 1)).

(** Some track identifiers to run the batching on. *)
Definition sample_tracks (n : nat) : list string :=
  (λ k, "spotify:track:" +:+ Str.join (replicate k "x")) <$> seq 0 n.

(** The line feed that ends the lines [readlines] returns. *)
Definition line_feed : string := String (Ascii.ascii_of_nat 10) "".

(** * Properties *)

(** ** Facts about the [str] built-ins *)

Module StrFacts.
Import Str.

#[local] Arguments String.prefix : simpl never.

Lemma append_cons c s t : String c s +:+ t = String c (s +:+ t).
Proof. reflexivity. Qed.

Lemma append_nil_l s : "" +:+ s = s.
Proof. reflexivity. Qed.

Lemma append_nil_r s : s +:+ "" = s.
Proof. induction s as [|c s IH]; [done |]. by rewrite append_cons, IH. Qed.

Lemma append_assoc s1 s2 s3 : (s1 +:+ s2) +:+ s3 = s1 +:+ (s2 +:+ s3).
Proof. induction s1 as [|c s1 IH]; [done |]. by rewrite !append_cons, IH. Qed.

Lemma prefix_cons a p b s :
  String.prefix (String a p) (String b s) = bool_decide (a = b) && String.prefix p s.
Proof. unfold String.prefix at 1. destruct (ascii_dec a b); case_bool_decide; done. Qed.

Lemma prefix_nil_l s : String.prefix "" s = true.
Proof. by destruct s. Qed.

Lemma prefix_nil_r p : p ≠ "" → String.prefix p "" = false.
Proof. by destruct p. Qed.

Lemma prefix_app_drop p s :
  String.prefix p s = true → s = p +:+ skip_chars (String.length p) s.
Proof.
  revert s. induction p as [|a p IH]; intros s H.
  - by destruct s.
  - destruct s as [|b s]; [done |].
    rewrite prefix_cons in H. apply andb_true_iff in H as [Hab Hp].
    apply bool_decide_eq_true in Hab as ->. simpl. rewrite append_cons. f_equal. by apply IH.
Qed.

Lemma prefix_app_l p s t : String.prefix p s = true → String.prefix p (s +:+ t) = true.
Proof.
  revert s. induction p as [|a p IH]; intros s H; [apply prefix_nil_l |].
  destruct s as [|b s]; [done |]. rewrite append_cons.
  rewrite prefix_cons in H |- *. apply andb_true_iff in H as [-> Hp].
  by rewrite (IH _ Hp).
Qed.

Lemma split_from_nonempty sep skip s : split_from sep skip s ≠ [].
Proof.
  revert skip. induction s as [|c s IH]; intros skip; simpl; [done |].
  destruct skip; [| apply IH].
  destruct (String.prefix sep (String c s)); [done |].
  by destruct (split_from sep 0 s).
Qed.

Lemma split_nonempty sep s : split sep s ≠ [].
Proof. apply split_from_nonempty. Qed.

(** The skip counter is the textbook recursion in disguise: at a match
    the scan resumes right after the separator. *)
Lemma split_from_skip sep skip s : split_from sep skip s = split sep (skip_chars skip s).
Proof.
  unfold split. revert skip. induction s as [|c s IH]; intros [|k]; try done.
  simpl. apply IH.
Qed.

Lemma split_at_separator sep c s :
  sep ≠ "" → String.prefix sep (String c s) = true →
  split sep (String c s) = "" :: split sep (skip_chars (String.length sep) (String c s)).
Proof.
  intros Hsep Hp. unfold split at 1. simpl. rewrite Hp, split_from_skip.
  destruct sep as [|a sep]; [done |]. simpl. by rewrite Nat.sub_0_r.
Qed.

Lemma split_off_separator sep c s :
  String.prefix sep (String c s) = false →
  split sep (String c s)
  = match split sep s with
    | piece :: pieces => String c piece :: pieces
    | [] => [String c ""]
    end.
Proof. intros Hp. unfold split. simpl. by rewrite Hp. Qed.

Lemma join_with_cons sep piece pieces :
  pieces ≠ [] → join_with sep (piece :: pieces) = piece +:+ sep +:+ join_with sep pieces.
Proof. by destruct pieces. Qed.

Lemma join_with_cons_head sep c piece pieces :
  join_with sep (String c piece :: pieces) = String c (join_with sep (piece :: pieces)).
Proof. by destruct pieces. Qed.

(** Joining the pieces with the separator restores the text. *)
Lemma join_with_split_from sep skip s :
  sep ≠ "" → join_with sep (split_from sep skip s) = skip_chars skip s.
Proof.
  intros Hsep. revert skip. induction s as [|c s IH]; intros skip.
  - by destruct skip.
  - destruct skip as [|k]; simpl split_from; [| by rewrite IH].
    destruct (String.prefix sep (String c s)) eqn:Hp.
    + rewrite join_with_cons by apply split_from_nonempty.
      rewrite IH. simpl. apply prefix_app_drop in Hp.
      destruct sep as [|a sep]; [done |]. simpl in Hp |- *.
      rewrite Nat.sub_0_r, append_cons in *. by injection Hp as -> <-.
    + pose proof (split_from_nonempty sep 0 s) as Hne.
      specialize (IH 0). destruct (split_from sep 0 s) as [|piece pieces]; [done |].
      rewrite join_with_cons_head, IH. by destruct s.
Qed.

Lemma join_with_split sep s : sep ≠ "" → join_with sep (split sep s) = s.
Proof. intros. unfold split. by rewrite join_with_split_from. Qed.

(** A split in exactly two pieces cuts the text at the separator. *)
Lemma split_two sep s a b : sep ≠ "" → split sep s = [a; b] → s = a +:+ sep +:+ b.
Proof. intros Hsep H. by rewrite <- (join_with_split sep s Hsep), H. Qed.

Lemma contains_nil_r sub : sub ≠ "" → contains sub "" = false.
Proof. intros. simpl. by rewrite prefix_nil_r. Qed.

Lemma contains_cons sub c s :
  contains sub (String c s) = String.prefix sub (String c s) || contains sub s.
Proof. done. Qed.

(** A separator that starts at the current position lies wholly inside
    the text, so the skipped characters exist. *)
Lemma split_from_length sep skip s :
  sep ≠ "" →
  (2 ≤ length (split_from sep skip s))%nat ↔ contains sep (skip_chars skip s) = true.
Proof.
  intros Hsep. revert skip. induction s as [|c s IH]; intros skip.
  - replace (skip_chars skip "") with "" by by destruct skip.
    rewrite contains_nil_r by done. simpl. split; [lia | done].
  - destruct skip as [|k]; simpl split_from; [| apply IH].
    simpl skip_chars. rewrite contains_cons.
    destruct (String.prefix sep (String c s)) eqn:Hp.
    + simpl. pose proof (split_from_nonempty sep (String.length sep - 1) s).
      destruct (split_from sep (String.length sep - 1) s); [done |]. simpl. split; [done | lia].
    + simpl orb. specialize (IH 0). simpl skip_chars in IH.
      replace (skip_chars 0 s) with s in IH by by destruct s.
      rewrite <- IH.
      pose proof (split_from_nonempty sep 0 s).
      by destruct (split_from sep 0 s).
Qed.

Lemma split_length sep s :
  sep ≠ "" → (2 ≤ length (split sep s))%nat ↔ contains sep s = true.
Proof. intros. unfold split. by rewrite split_from_length. Qed.

(** [s.split(sep)] has one more piece than [s.count(sep)]. *)
Lemma split_from_count sep skip s :
  length (split_from sep skip s) = S (count_from sep skip s).
Proof.
  revert skip. induction s as [|c s IH]; intros skip; simpl; [done |].
  destruct skip; [| apply IH].
  destruct (String.prefix sep (String c s)); simpl; [by rewrite IH |].
  specialize (IH 0). by destruct (split_from sep 0 s).
Qed.

(** Text appended after the first comma does not change what precedes it. *)
Lemma hd_split_char_app ch s t :
  contains (String ch "") s = true →
  hd "" (split (String ch "") (s +:+ t)) = hd "" (split (String ch "") s).
Proof.
  unfold split. induction s as [|c s IH]; intros H.
  - by rewrite contains_nil_r in H.
  - rewrite contains_cons in H. rewrite append_cons. simpl split_from.
    rewrite !prefix_cons.
    pose proof prefix_nil_l as Hnil.
    rewrite !Hnil, !andb_true_r.
    case_bool_decide as Hc; [done |].
    rewrite prefix_cons, Hnil, andb_true_r, bool_decide_eq_false_2 in H by done.
    specialize (IH H).
    pose proof (split_from_nonempty (String ch "") 0 s).
    pose proof (split_from_nonempty (String ch "") 0 (s +:+ t)).
    destruct (split_from _ 0 s), (split_from _ 0 (s +:+ t)); try done.
    simpl in IH |- *. by rewrite IH.
Qed.

End StrFacts.

(** ** More facts about [split] *)

Module SplitFacts.
Import Str StrFacts.

#[local] Arguments String.prefix : simpl never.

Lemma prefix_append p t : String.prefix p (p +:+ t) = true.
Proof.
  induction p as [|c p IH]; [apply prefix_nil_l |].
  rewrite append_cons, prefix_cons, IH. by rewrite bool_decide_eq_true_2.
Qed.

Lemma skip_chars_append p t : skip_chars (String.length p) (p +:+ t) = t.
Proof. induction p as [|c p IH]; [by destruct t | done]. Qed.

Lemma join_with_hd sep piece pieces :
  ∃ tail, join_with sep (piece :: pieces) = piece +:+ tail.
Proof.
  destruct pieces as [|piece' pieces].
  - exists "". simpl. by rewrite append_nil_r.
  - by eexists.
Qed.

(** The first piece holds no separator. *)
Lemma hd_split_clean sep s : sep ≠ "" → contains sep (hd "" (split sep s)) = false.
Proof.
  intros Hsep. induction s as [|c s IH]; [by apply contains_nil_r |].
  destruct (String.prefix sep (String c s)) eqn:Hp.
  - rewrite split_at_separator by done. by apply contains_nil_r.
  - rewrite split_off_separator by done.
    pose proof (split_nonempty sep s) as Hne.
    pose proof (join_with_split sep s Hsep) as Hjoin.
    destruct (split sep s) as [|piece pieces]; [done |].
    unfold hd in IH |- *. rewrite contains_cons, IH, orb_false_r.
    destruct (join_with_hd sep piece pieces) as [tail Htail].
    rewrite Htail in Hjoin.
    destruct (String.prefix sep (String c piece)) eqn:Hp'; [| done].
    apply (prefix_app_l _ _ tail) in Hp'.
    rewrite append_cons, Hjoin in Hp'. congruence.
Qed.

(** A text without the separator is its own single piece. *)
Lemma split_no_occurrence sep s : sep ≠ "" → contains sep s = false → split sep s = [s].
Proof.
  intros Hsep Hc.
  pose proof (split_length sep s Hsep) as Hlen.
  pose proof (split_nonempty sep s) as Hne.
  pose proof (join_with_split sep s Hsep) as Hjoin.
  destruct (split sep s) as [|piece [|piece' pieces]]; [done | by simpl in Hjoin; subst |].
  rewrite Hc in Hlen. destruct Hlen as [Hlen _]. simpl in Hlen.
  assert (false = true) by (apply Hlen; lia). done.
Qed.

Lemma split_prefix sep t : sep ≠ "" → split sep (sep +:+ t) = "" :: split sep t.
Proof.
  intros Hsep. pose proof (prefix_append sep t) as Hp.
  pose proof (skip_chars_append sep t) as Hskip.
  destruct (sep +:+ t) as [|c s] eqn:Hs; [by destruct sep |].
  by rewrite split_at_separator, Hskip.
Qed.

Lemma contains_char_cons ch c s :
  contains (String ch "") (String c s) = bool_decide (ch = c) || contains (String ch "") s.
Proof. by rewrite contains_cons, prefix_cons, prefix_nil_l, andb_true_r. Qed.

(** With a one-character separator nothing can straddle a boundary. *)
Lemma split_char_append ch a b :
  contains (String ch "") a = false →
  split (String ch "") (a +:+ String ch b) = a :: split (String ch "") b.
Proof.
  induction a as [|c a IH]; intros Ha.
  - rewrite append_nil_l.
    rewrite split_at_separator; [done | done |].
    by rewrite prefix_cons, prefix_nil_l, bool_decide_eq_true_2.
  - rewrite contains_char_cons in Ha. apply orb_false_iff in Ha as [Hc Ha].
    rewrite append_cons, split_off_separator, (IH Ha); [done |].
    by rewrite prefix_cons, Hc.
Qed.

Lemma hd_split_char_append ch a b :
  contains (String ch "") a = false →
  hd "" (split (String ch "") (a +:+ b)) = a +:+ hd "" (split (String ch "") b).
Proof.
  induction a as [|c a IH]; intros Ha; [done |].
  rewrite contains_char_cons in Ha. apply orb_false_iff in Ha as [Hc Ha].
  rewrite append_cons, split_off_separator by (by rewrite prefix_cons, Hc).
  specialize (IH Ha). pose proof (split_nonempty (String ch "") (a +:+ b)).
  destruct (split (String ch "") (a +:+ b)); [done |].
  unfold hd in IH |- *. by rewrite IH, append_cons.
Qed.


(** Gluing the pieces without the separator is [s.replace(sep, '')]. *)
Lemma join_split_from sep skip s : join (split_from sep skip s) = remove_from sep skip s.
Proof.
  revert skip. induction s as [|c s IH]; intros skip; [done |].
  destruct skip as [|k]; simpl split_from; simpl remove_from; [| apply IH].
  destruct (String.prefix sep (String c s)); [apply IH |].
  specialize (IH 0). pose proof (split_from_nonempty sep 0 s).
  destruct (split_from sep 0 s) as [|piece pieces]; [done |].
  rewrite <- IH. reflexivity.
Qed.

Lemma join_split sep s : join (split sep s) = remove sep s.
Proof. apply join_split_from. Qed.

(** The pieces after the first are the pieces of the text after the first
    separator. *)
Lemma split_first sep s :
  sep ≠ "" →
  ∀ piece pieces,
    split sep s = piece :: pieces → pieces ≠ [] →
    ∃ after, s = piece +:+ sep +:+ after ∧ pieces = split sep after.
Proof.
  intros Hsep. induction s as [|c s IH]; intros piece pieces Hs Hne.
  - injection Hs as <- <-. done.
  - destruct (String.prefix sep (String c s)) eqn:Hp.
    + rewrite split_at_separator in Hs by done. injection Hs as <- <-.
      exists (skip_chars (String.length sep) (String c s)). split; [| done].
      by apply prefix_app_drop.
    + rewrite split_off_separator in Hs by done.
      pose proof (split_nonempty sep s).
      destruct (split sep s) as [|piece' pieces'] eqn:Hs'; [done |].
      injection Hs as <- <-.
      destruct (IH piece' pieces' eq_refl Hne) as (after & -> & ->).
      by exists after.
Qed.

End SplitFacts.

(** ** Loops that append one result per element *)

Section for_each_append.
Context {A B : Type} (f : A → result B).

Lemma for_each_append_returned l ys acc :
  Forall2 (λ x y, f x = Returned y) l ys →
  for_each (λ acc x, y ← f x; Returned (acc ++ [y])) acc l = Returned (acc ++ ys).
Proof.
  intros H. revert acc. induction H as [|x y l ys Hx _ IH]; intros acc; simpl.
  - by rewrite app_nil_r.
  - rewrite Hx. change (Returned ?a ≫= ?k) with (k a). cbv beta.
    change (Returned ?a ≫= ?k) with (k a). cbv beta.
    rewrite IH. by rewrite <- app_assoc.
Qed.

Lemma for_each_append_raised e l acc :
  Forall (λ x, (∃ y, f x = Returned y) ∨ f x = Raised e) l →
  Exists (λ x, f x = Raised e) l →
  for_each (λ acc x, y ← f x; Returned (acc ++ [y])) acc l = Raised e.
Proof.
  intros Hall. revert acc.
  induction Hall as [|x l Hx _ IH]; intros acc Hex; [by apply Exists_nil in Hex |].
  simpl. destruct Hx as [[y Hy] | Hx]; [| by rewrite Hx].
  rewrite Hy. change (Returned ?a ≫= ?k) with (k a). cbv beta.
  change (Returned ?a ≫= ?k) with (k a). cbv beta.
  apply IH. apply Exists_cons in Hex as [Hex | Hex]; [congruence | done].
Qed.

Lemma Forall_returned_Forall2 l :
  Forall (λ x, ∃ y, f x = Returned y) l → ∃ ys, Forall2 (λ x y, f x = Returned y) l ys.
Proof.
  induction 1 as [|x l [y Hy] _ [ys IH]]; [by exists [] |].
  exists (y :: ys). by constructor.
Qed.
End for_each_append.

Lemma for_each_append_inv {A B} (f : A → result B) l :
  ∀ acc out,
    for_each (λ acc x, y ← f x; Returned (acc ++ [y])) acc l = Returned out →
    ∃ ys, out = acc ++ ys ∧ Forall2 (λ x y, f x = Returned y) l ys.
Proof.
  induction l as [|x l IH]; intros acc out H; simpl in H.
  - injection H as <-. exists []. by rewrite app_nil_r.
  - destruct (f x) as [y| |] eqn:Hx; [| done | done].
    change (Returned y ≫= ?k) with (k y) in H. cbv beta in H.
    change (Returned ?a ≫= ?k) with (k a) in H. cbv beta in H.
    destruct (IH _ _ H) as (ys & -> & Hys).
    exists (y :: ys). split; [by rewrite <- app_assoc | by constructor].
Qed.

(** ** The record reassembler *)

Module Reassembly.
Import StrFacts.

Lemma merge_step_at_cursor done cur next rest :
  merge_step (at_cursor done cur (next :: rest)) = at_cursor done (cur +:+ next) rest.
Proof.
  unfold merge_step, at_cursor, slice_assign, slice; simpl.
  rewrite take_app_length, drop_app_length, drop_app_ge by lia.
  replace (length done + 2 - length done)%nat with 2%nat by lia.
  simpl. rewrite append_nil_r. f_equal.
  rewrite !length_app. simpl. lia.
Qed.

Lemma index_at_cursor done cur rest :
  index (fm_text (at_cursor done cur rest)) (fm_i (at_cursor done cur rest) + 1)
  = match rest with [] => Raised IndexError | next :: _ => Returned next end.
Proof.
  unfold index, at_cursor; simpl.
  rewrite lookup_app_r by lia.
  replace (length done + 1 - length done)%nat with 1%nat by lia.
  by destruct rest.
Qed.

Lemma inner_loop_S fuel st :
  inner_loop (S fuel) st
  = (next ← index (fm_text st) (fm_i st + 1);
     if is_date_start next
     then Returned (FmState (fm_text st) (fm_length st) (fm_i st + 1))
     else inner_loop fuel (merge_step st)).
Proof. reflexivity. Qed.

Lemma outer_loop_S fuel st :
  outer_loop (S fuel) st
  = if (Z.of_nat (fm_i st) <=? fm_length st)%Z
    then inner_loop (S (length (fm_text st))) st ≫= outer_loop fuel
    else Returned (fm_text st).
Proof. reflexivity. Qed.

Lemma fmap_fmap_cons done cur (r : result (list string)) :
  (app done) <$> (cons cur <$> r) = app (done ++ [cur]) <$> r.
Proof. destruct r; simpl; [| done | done]. unfold fmap, result_fmap. by rewrite <- app_assoc. Qed.

(** The loops agree with [reassemble] once the fuel covers the fragments
    that are left. *)
Lemma loops_reassemble rest :
  ∀ done cur,
    (∀ fuel_i fuel_o, (length rest < fuel_i)%nat → (length rest ≤ fuel_o)%nat →
       (inner_loop fuel_i (at_cursor done cur rest) ≫= outer_loop fuel_o)
       = app done <$> reassemble cur rest true)
    ∧ (∀ fuel_o, (length rest < fuel_o)%nat →
       outer_loop fuel_o (at_cursor done cur rest)
       = app done <$> reassemble cur rest false).
Proof.
  induction rest as [|next rest IH]; intros done cur.
  - split.
    + intros [|fuel_i] fuel_o Hi _; [simpl in Hi; lia |].
      by rewrite inner_loop_S, index_at_cursor.
    + intros [|fuel_o] Ho; [simpl in Ho; lia |].
      rewrite outer_loop_S. simpl. rewrite length_app. simpl.
      destruct (Z.leb_spec (Z.of_nat (length done)) (Z.of_nat (length done + 1) - 2)); [lia | done].
  - assert (∀ fuel_i fuel_o, (length (next :: rest) < fuel_i)%nat →
              (length (next :: rest) ≤ fuel_o)%nat →
              (inner_loop fuel_i (at_cursor done cur (next :: rest)) ≫= outer_loop fuel_o)
              = app done <$> reassemble cur (next :: rest) true) as Hinner.
    { intros [|fuel_i] fuel_o Hi Ho; [simpl in Hi; lia |]. simpl in Hi, Ho.
      rewrite inner_loop_S, index_at_cursor. simpl.
      destruct (is_date_start next) eqn:Hdate.
      - destruct (IH (done ++ [cur]) next) as [_ IHo].
        assert (FmState (done ++ cur :: next :: rest)
                  (Z.of_nat (length (done ++ cur :: next :: rest)) - 2) (length done + 1)
                = at_cursor (done ++ [cur]) next rest) as ->.
        { unfold at_cursor. rewrite <- app_assoc. simpl. f_equal.
          rewrite length_app. simpl. lia. }
        change (outer_loop fuel_o (at_cursor (done ++ [cur]) next rest)
                = app done <$> (cons cur <$> reassemble next rest false)).
        rewrite IHo by lia. by rewrite fmap_fmap_cons.
      - rewrite merge_step_at_cursor.
        destruct (IH done (cur +:+ next)) as [IHi _]. apply IHi; lia. }
    split; [exact Hinner |].
    intros [|fuel_o] Ho; [simpl in Ho; lia |]. simpl in Ho.
    rewrite outer_loop_S.
    destruct (Z.leb_spec (Z.of_nat (fm_i (at_cursor done cur (next :: rest))))
                (fm_length (at_cursor done cur (next :: rest)))) as [_|Hlt].
    + rewrite Hinner; [done | simpl; rewrite length_app; simpl; lia | simpl; lia].
    + simpl in Hlt. rewrite length_app in Hlt. simpl in Hlt. lia.
Qed.

Lemma format_messages_nil : format_messages [] = Returned [].
Proof. reflexivity. Qed.

(** [format_messages] in closed form. *)
Lemma format_messages_cons first rest :
  format_messages (first :: rest) = reassemble first rest false.
Proof.
  unfold format_messages.
  destruct (loops_reassemble rest [] first) as [_ H].
  change (FmState _ _ _) with (at_cursor [] first rest).
  rewrite H by (simpl; lia).
  by destruct (reassemble first rest false).
Qed.

(** The loops always finish within the fuel [format_messages] supplies,
    and the only exception they can raise is [IndexError]. *)
Lemma reassemble_outcome cur rest merged :
  (∃ out, reassemble cur rest merged = Returned out)
  ∨ reassemble cur rest merged = Raised IndexError.
Proof.
  revert cur merged. induction rest as [|next rest IH]; intros cur merged; simpl.
  - destruct merged; eauto.
  - destruct (is_date_start next); [| apply IH].
    destruct (IH next false) as [[out ->] | ->]; simpl; eauto.
Qed.

Lemma format_messages_terminates text : format_messages text ≠ OutOfFuel.
Proof.
  destruct text as [|first rest]; [done |].
  rewrite format_messages_cons.
  by destruct (reassemble_outcome first rest false) as [[out ->] | ->].
Qed.

(** Fragments that never meet the date criterion are merged one by one
    until [text[i+1]] is read past the end. *)
Lemma reassemble_no_date rem cur merged :
  Forall (λ f, is_date_start f = false) rem →
  rem ≠ [] ∨ merged = true →
  reassemble cur rem merged = Raised IndexError.
Proof.
  intros Hrem. revert cur merged.
  induction Hrem as [|next rem Hnext _ IH]; intros cur merged Hne; simpl.
  - by destruct Hne as [? | ->].
  - rewrite Hnext. apply IH. by right.
Qed.

Lemma reassemble_no_date_suffix pre cur rem first merged :
  Forall (λ f, is_date_start f = false) rem →
  rem ≠ [] →
  reassemble first (pre ++ cur :: rem) merged = Raised IndexError.
Proof.
  intros Hrem Hne. revert first merged.
  induction pre as [|p pre IH]; intros first merged; simpl.
  - destruct (is_date_start cur).
    + rewrite reassemble_no_date; auto.
    + apply reassemble_no_date; auto.
  - destruct (is_date_start p); [by rewrite IH | apply IH].
Qed.

(** A last fragment that meets the date criterion lets the loops run to
    their end. *)
Lemma reassemble_dated_end rest last_fragment :
  is_date_start last_fragment = true →
  ∀ cur merged, ∃ out, reassemble cur (rest ++ [last_fragment]) merged = Returned out.
Proof.
  intros Hdate. induction rest as [|next rest IH]; intros cur merged; simpl.
  - rewrite Hdate. simpl. eauto.
  - destruct (is_date_start next); [| apply IH].
    destruct (IH next false) as [out ->]. simpl. eauto.
Qed.

Lemma format_messages_returns text last_fragment :
  is_date_start last_fragment = true →
  ∃ out, format_messages (text ++ [last_fragment]) = Returned out.
Proof.
  intros Hdate. destruct text as [|first rest]; simpl.
  - by exists [last_fragment].
  - rewrite format_messages_cons. by apply reassemble_dated_end.
Qed.

(** The shape of the records [reassemble] returns: the record under the
    cursor grows by the fragments merged into it, and each later record
    grows from a fragment that met the date criterion. *)
Lemma reassemble_records rest :
  ∀ cur merged out,
    reassemble cur rest merged = Returned out →
    ∃ tail out',
      out = (cur +:+ tail) :: out' ∧
      Forall (λ r, ∃ f tail', f ∈ rest ∧ is_date_start f = true ∧ r = f +:+ tail') out'.
Proof.
  induction rest as [|next rest IH]; intros cur merged out H; simpl in H.
  - destruct merged; [done |]. injection H as <-.
    exists "", []. by rewrite append_nil_r.
  - destruct (is_date_start next) eqn:Hdate.
    + destruct (reassemble next rest false) as [out1 | |] eqn:H1; [| done | done].
      injection H as <-.
      destruct (IH _ _ _ H1) as (tail & out' & -> & Hout').
      exists "", ((next +:+ tail) :: out'). rewrite append_nil_r. split; [done |].
      constructor.
      * exists next, tail. split_and!; [left | done | done].
      * eapply Forall_impl; [exact Hout' |].
        intros r (f & tail' & Hf & Hd & ->). exists f, tail'. split_and!; [by right | done | done].
    + destruct (IH _ _ _ H) as (tail & out' & -> & Hout').
      exists (next +:+ tail), out'. rewrite append_assoc. split; [done |].
      eapply Forall_impl; [exact Hout' |].
      intros r (f & tail' & Hf & Hd & ->). exists f, tail'. split_and!; [by right | done | done].
Qed.

(** A fragment that holds a comma keeps its date element when more text
    is appended. *)
Lemma is_date_start_app f tail :
  Str.contains "," f = true → is_date_start (f +:+ tail) = is_date_start f.
Proof.
  intros H. unfold is_date_start, date_element. by rewrite hd_split_char_app.
Qed.

(** C8, where the code departs from the specification: whenever at least
    one fragment follows the cursor and none of the fragments after it
    meets the date criterion, [format_messages] does not report the
    unmerged remainder; it merges it and then stops with an uncaught
    [IndexError] from [text[i+1]]. *)
Theorem trailing_continuation_raises pre cur rem :
  rem ≠ [] →
  Forall (λ f, is_date_start f = false) rem →
  format_messages (pre ++ cur :: rem) = Raised IndexError.
Proof.
  intros Hne Hrem. destruct pre as [|first pre]; simpl; rewrite format_messages_cons.
  - apply reassemble_no_date; auto.
  - by apply reassemble_no_date_suffix.
Qed.

Lemma trailing_continuation_raises_witness :
  format_messages ["1/2/20, 10:00 - A: hi "; "3/2/20, 11:00 - B: see "; "the attachment "]
  = Raised IndexError.
Proof.
  apply (trailing_continuation_raises
           ["1/2/20, 10:00 - A: hi "] "3/2/20, 11:00 - B: see " ["the attachment "]).
  - done.
  - repeat constructor.
Defined.

(** C1 (amended): when [format_messages] returns, every record after the
    first starts with an input fragment that meets the date criterion, and
    begins with a valid date token itself whenever that fragment holds a
    comma; the first record starts with the first input fragment, which no
    test ever looks at, and when that fragment holds a comma the record
    begins with a valid date token exactly when the fragment does. *)
Theorem records_start_with_tested_fragment text out :
  format_messages text = Returned out →
  (∀ k r, out !! S k = Some r →
     ∃ f tail, f ∈ text ∧ is_date_start f = true ∧ r = f +:+ tail ∧
               (Str.contains "," f = true → is_date_start r = true))
  ∧ (∀ r, out !! 0%nat = Some r →
       ∃ f tail, text !! 0%nat = Some f ∧ r = f +:+ tail ∧
                 (Str.contains "," f = true → is_date_start r = is_date_start f)).
Proof.
  intros H. destruct text as [|first rest].
  - injection H as <-. split; intros; done.
  - rewrite format_messages_cons in H.
    destruct (reassemble_records _ _ _ _ H) as (tail & out' & -> & Hout'). split.
    + intros k r Hk. simpl in Hk.
      apply list_elem_of_lookup_2 in Hk.
      rewrite Forall_forall in Hout'.
      destruct (Hout' _ Hk) as (f & tail' & Hf & Hd & ->).
      exists f, tail'. split_and!; [by right | done | done |].
      intros Hc. by rewrite is_date_start_app.
    + intros r [= <-]. exists first, tail. split_and!; [done | done |].
      apply is_date_start_app.
Qed.

Lemma records_start_with_tested_fragment_witness :
  (∀ k r, ["1/2/20, 10:00 - A: hi more "; "3/2/20, 11:00 - B: yo "] !! S k = Some r →
     ∃ f tail,
       f ∈ ["1/2/20, 10:00 - A: hi "; "more "; "3/2/20, 11:00 - B: yo "] ∧
       is_date_start f = true ∧ r = f +:+ tail ∧
       (Str.contains "," f = true → is_date_start r = true))
  ∧ (∀ r, ["1/2/20, 10:00 - A: hi more "; "3/2/20, 11:00 - B: yo "] !! 0%nat = Some r →
       ∃ f tail,
         ["1/2/20, 10:00 - A: hi "; "more "; "3/2/20, 11:00 - B: yo "] !! 0%nat = Some f ∧
         r = f +:+ tail ∧
         (Str.contains "," f = true → is_date_start r = is_date_start f)).
Proof.
  apply (records_start_with_tested_fragment
           ["1/2/20, 10:00 - A: hi "; "more "; "3/2/20, 11:00 - B: yo "]).
  reflexivity.
Defined.

(** C1 does not hold without the amendment: the first fragment is
    returned as the first record whatever it starts with. *)
Lemma first_record_without_date :
  format_messages ["joined using an invite link "; "1/2/20, 10:00 - A: hi "]
  = Returned ["joined using an invite link "; "1/2/20, 10:00 - A: hi "]
  ∧ is_date_start "joined using an invite link " = false.
Proof. split; reflexivity. Qed.

(** A later record can lose its date token too, when the fragment that
    met the criterion had no comma. *)
Lemma later_record_without_date :
  format_messages ["1/2/20, 10:00 - A: hi "; "3/2/20"; " was fun "; "4/2/20, 11:00 - B: yo "]
  = Returned ["1/2/20, 10:00 - A: hi "; "3/2/20 was fun "; "4/2/20, 11:00 - B: yo "]
  ∧ is_date_start "3/2/20 was fun " = false.
Proof. split; reflexivity. Qed.

(** *** Further properties of [replace_enters] and [format_messages] *)

(** The date criterion counts characters, not bytes: a date element of
    eight characters passes although it takes eleven bytes. *)
Lemma date_criteria_counts_characters :
  String.length "ça/là/où" = 11%nat
  ∧ is_date_start "ça/là/où, x " = true
  ∧ format_messages ["a "; "ça/là/où, x "; "1/2/20, y "]
    = Returned ["a "; "ça/là/où, x "; "1/2/20, y "]
  ∧ format_messages ["1/2/20, x "; "ça/là/où, y "]
    = Returned ["1/2/20, x "; "ça/là/où, y "].
Proof. repeat split; reflexivity. Qed.




Lemma reassemble_all_dated rest :
  Forall (λ f, is_date_start f = true) rest →
  ∀ cur, reassemble cur rest false = Returned (cur :: rest).
Proof.
  induction 1 as [|next rest Hnext _ IH]; intros cur; simpl in *; [done |].
  by rewrite Hnext, IH.
Qed.

(** X2: on a transcript that is already one message per line, that is,
    every fragment after the first meets the date criterion,
    [format_messages] returns the fragments unchanged. *)
Theorem format_messages_unwrapped first rest :
  Forall (λ f, is_date_start f = true) rest →
  format_messages (first :: rest) = Returned (first :: rest).
Proof. intros H. rewrite format_messages_cons. by apply reassemble_all_dated. Qed.

Lemma format_messages_unwrapped_witness :
  format_messages ["1/2/20, 10:00 - A: hi "; "3/2/20, 11:00 - B: yo "; "4/2/20, 9:00 - A: ok "]
  = Returned ["1/2/20, 10:00 - A: hi "; "3/2/20, 11:00 - B: yo "; "4/2/20, 9:00 - A: ok "].
Proof.
  apply (format_messages_unwrapped "1/2/20, 10:00 - A: hi "
           ["3/2/20, 11:00 - B: yo "; "4/2/20, 9:00 - A: ok "]).
  repeat constructor.
Defined.

Lemma reassemble_join rest :
  ∀ cur merged out,
    reassemble cur rest merged = Returned out → Str.join out = cur +:+ Str.join rest.
Proof.
  induction rest as [|next rest IH]; intros cur merged out H; simpl in H.
  - destruct merged; [done |]. by injection H as <-.
  - destruct (is_date_start next).
    + destruct (reassemble next rest false) as [out1| |] eqn:H1; [| done | done].
      injection H as <-. simpl. f_equal. by eapply IH.
    + apply IH in H. rewrite H. simpl. apply append_assoc.
Qed.

(** X3: merging loses and reorders nothing: the records [format_messages]
    returns, glued together, are the fragments glued together. *)
Theorem format_messages_keeps_text text out :
  format_messages text = Returned out → Str.join out = Str.join text.
Proof.
  destruct text as [|first rest]; intros H.
  - by injection H as <-.
  - rewrite format_messages_cons in H. by apply reassemble_join in H.
Qed.

Lemma format_messages_keeps_text_witness :
  Str.join ["1/2/20, 10:00 - A: hi more "; "3/2/20, 11:00 - B: yo "]
  = Str.join ["1/2/20, 10:00 - A: hi "; "more "; "3/2/20, 11:00 - B: yo "].
Proof.
  apply (format_messages_keeps_text
           ["1/2/20, 10:00 - A: hi "; "more "; "3/2/20, 11:00 - B: yo "]).
  reflexivity.
Defined.

Lemma reassemble_length rest :
  ∀ cur merged out,
    reassemble cur rest merged = Returned out →
    length out = S (length (filter (λ f, is_date_start f = true) rest)).
Proof.
  induction rest as [|next rest IH]; intros cur merged out H; simpl in H.
  - destruct merged; [done |]. by injection H as <-.
  - rewrite filter_cons. destruct (is_date_start next) eqn:Hd.
    + rewrite decide_True by done.
      destruct (reassemble next rest false) as [out1| |] eqn:H1; [| done | done].
      injection H as <-. simpl. f_equal. by eapply IH.
    + rewrite decide_False by done. by eapply IH.
Qed.

(** X4: [format_messages] returns one record for the first fragment and
    one for every later fragment that meets the date criterion, however
    many lines the messages are wrapped over. *)
Theorem format_messages_record_count first rest out :
  format_messages (first :: rest) = Returned out →
  length out = S (length (filter (λ f, is_date_start f = true) rest)).
Proof. rewrite format_messages_cons. apply reassemble_length. Qed.

Lemma format_messages_record_count_witness :
  length ["1/2/20, 10:00 - A: hi more text "; "3/2/20, 11:00 - B: yo "] = 2%nat.
Proof.
  apply (format_messages_record_count "1/2/20, 10:00 - A: hi "
           ["more "; "text "; "3/2/20, 11:00 - B: yo "]).
  reflexivity.
Defined.

Lemma reassemble_raises rest :
  ∀ cur merged,
    reassemble cur rest merged = Raised IndexError
    ↔ match last rest with
      | Some f => is_date_start f = false
      | None => merged = true
      end.
Proof.
  induction rest as [|next rest IH]; intros cur merged; simpl reassemble.
  - simpl. by destruct merged.
  - rewrite last_cons. destruct (is_date_start next) eqn:Hd.
    + specialize (IH next false).
      destruct (reassemble next rest false) as [out1| |] eqn:H1;
        destruct (last rest); simpl; split; intros H; try done;
        try (by apply IH in H); try (by apply IH); try congruence.
    + rewrite (IH (cur +:+ next) true). by destruct (last rest).
Qed.

(** X5: [format_messages] raises exactly when the transcript has at least
    two fragments and its last fragment does not meet the date criterion;
    on every other transcript it returns. *)
Theorem format_messages_raises_iff text :
  (format_messages text = Raised IndexError
   ↔ (2 ≤ length text)%nat ∧ ∃ f, last text = Some f ∧ is_date_start f = false)
  ∧ ((∃ out, format_messages text = Returned out)
     ↔ ¬ ((2 ≤ length text)%nat ∧ ∃ f, last text = Some f ∧ is_date_start f = false)).
Proof.
  assert (format_messages text = Raised IndexError
          ↔ (2 ≤ length text)%nat ∧ ∃ f, last text = Some f ∧ is_date_start f = false)
    as Hraise.
  { destruct text as [|first [|second rest]].
    - split; [done | simpl; lia].
    - split; [done | simpl; lia].
    - rewrite format_messages_cons, reassemble_raises.
      rewrite (last_cons first). 
      destruct (last (second :: rest)) as [f|] eqn:Hlast.
      + split.
        * intros Hf. split; [simpl; lia | eauto].
        * by intros [_ (f' & [= <-] & Hf')].
      + by rewrite last_cons in Hlast; destruct (last rest). }
  split; [exact Hraise |]. rewrite <- Hraise.
  destruct text as [|first rest]; [split; [done | by exists []] |].
  rewrite format_messages_cons.
  destruct (reassemble_outcome first rest false) as [[out ->] | ->].
  - split; [done | eauto].
  - split; [by intros [out ?] | done].
Qed.

Lemma format_messages_raises_iff_witness :
  format_messages ["1/2/20, 10:00 - A: hi "; "more "] = Raised IndexError
  ∧ ∃ out, format_messages ["no date here "] = Returned out.
Proof.
  split.
  - apply (proj2 (proj1 (format_messages_raises_iff ["1/2/20, 10:00 - A: hi "; "more "]))).
    split; [simpl; lia |]. by exists "more ".
  - apply (proj2 (proj2 (format_messages_raises_iff ["no date here "]))).
    intros [Hlen _]. simpl in Hlen. lia.
Defined.

End Reassembly.

(** ** The record tokenizer *)

Module Tokenizer.
Import StrFacts.

Lemma index_0_nonempty (s : list string) : s ≠ [] → index s 0 = Returned (hd "" s).
Proof. by destruct s. Qed.

Lemma merge_tail_nonempty s : s ≠ [] → merge_tail s ≠ [].
Proof.
  intros H. unfold merge_tail, slice_assign.
  destruct (2 <? length s)%nat; [| done]. by destruct s.
Qed.

Lemma hd_merge_tail s : hd "" (merge_tail s) = hd "" s.
Proof.
  unfold merge_tail, slice_assign.
  destruct (2 <? length s)%nat; [| done]. by destruct s.
Qed.

Lemma index_1_merge_tail s :
  index (merge_tail s) 1
  = if (2 <=? length s)%nat then Returned (Str.join (drop 1 s)) else Raised IndexError.
Proof.
  unfold merge_tail, slice_assign.
  destruct s as [|a [|b [|c s]]]; [done | done | |].
  - simpl. unfold index. simpl. by rewrite append_nil_r.
  - done.
Qed.

Lemma index_1_split sep s :
  sep ≠ "" →
  index (merge_tail (Str.split sep s)) 1
  = if Str.contains sep s then Returned (rest_after sep s) else Raised IndexError.
Proof.
  intros Hsep. rewrite index_1_merge_tail.
  pose proof (split_length sep s Hsep) as Hlen.
  destruct (Str.contains sep s).
  - by rewrite (proj2 (Nat.leb_le _ _)) by by apply Hlen.
  - destruct (Nat.leb_spec 2 (length (Str.split sep s))) as [Hle|]; [| done].
    by apply Hlen in Hle.
Qed.

(** [tokenize] returns exactly on the records that hold both separators;
    the sender/body step never fails, because a lone piece is padded with
    an empty sender. *)
Lemma tokenize_separated record :
  has_separators record = true → ∃ m, tokenize record = Returned m.
Proof.
  unfold has_separators. intros [H1 H2]%andb_true_iff.
  unfold tokenize.
  rewrite index_1_split, H1 by done.
  change (Returned ?x ≫= ?f) with (f x). cbv beta.
  rewrite index_1_split, H2 by done.
  change (Returned ?x ≫= ?f) with (f x). cbv beta.
  pose proof (split_nonempty ": " (rest_after " - " (rest_after ", " record))) as Hne.
  destruct (Str.split ": " _) as [|a [|b s3]]; [done | |].
  - change (length [a] =? 1)%nat with true. cbv beta iota.
    change (index [a] 0) with (Returned a).
    do 2 (change (Returned ?x ≫= ?f) with (f x); cbv beta).
    rewrite !index_0_nonempty by (apply merge_tail_nonempty; done || apply split_nonempty).
    do 3 (change (Returned ?x ≫= ?f) with (f x); cbv beta).
    change (index (merge_tail [""; a]) 1) with (Returned a).
    change (Returned ?x ≫= ?f) with (f x); cbv beta.
    eauto.
  - change (length (a :: b :: s3) =? 1)%nat with false. cbv beta iota.
    change (Returned ?x ≫= ?f) with (f x); cbv beta.
    rewrite !index_0_nonempty by (apply merge_tail_nonempty; done || apply split_nonempty).
    do 3 (change (Returned ?x ≫= ?f) with (f x); cbv beta).
    rewrite index_1_merge_tail.
    change (2 <=? length (a :: b :: s3))%nat with true. cbv beta iota.
    change (Returned ?x ≫= ?f) with (f x); cbv beta.
    eauto.
Qed.

Lemma tokenize_unseparated record :
  has_separators record = false → tokenize record = Raised IndexError.
Proof.
  unfold has_separators. intros H. unfold tokenize.
  rewrite index_1_split by done.
  destruct (Str.contains ", " record); [| done]. simpl in H.
  change (Returned ?x ≫= ?f) with (f x). cbv beta.
  rewrite index_1_split, H by done. done.
Qed.

Lemma tokenize_outcome record :
  (∃ m, tokenize record = Returned m) ∨ tokenize record = Raised IndexError.
Proof.
  destruct (has_separators record) eqn:H.
  - left. by apply tokenize_separated.
  - right. by apply tokenize_unseparated.
Qed.

(** C2 (amended): a run in which every record holds [', '] and, after it,
    [' - '] is tokenized record by record without error, whether or not a
    record holds [': ']; one record that lacks either separator raises
    [IndexError], and no data frame is produced. *)
Theorem tokenization_needs_separators text :
  (Forall (λ r, has_separators r = true) text →
     ∃ rows, convert_to_dataframe text = Returned rows
             ∧ Forall2 (λ r row, tokenize r = Returned row) text rows)
  ∧ (Exists (λ r, has_separators r = false) text →
     convert_to_dataframe text = Raised IndexError).
Proof.
  unfold convert_to_dataframe. split.
  - intros Hall.
    destruct (Forall_returned_Forall2 tokenize text) as [rows Hrows].
    { eapply Forall_impl; [exact Hall |]. intros r. apply tokenize_separated. }
    exists rows. split; [| done].
    by rewrite (for_each_append_returned tokenize text rows).
  - intros Hex. apply for_each_append_raised.
    + apply Forall_forall. intros r _. apply tokenize_outcome.
    + eapply Exists_impl; [exact Hex |]. intros r. apply tokenize_unseparated.
Qed.

Lemma tokenization_needs_separators_witness :
  (∃ rows,
     convert_to_dataframe
       ["1/2/20, 10:00 - Messages are end-to-end encrypted ";
        "1/2/20, 10:01 - Alice: listen, really - now: https://open.spotify.com/track/abc "]
     = Returned rows
     ∧ Forall2 (λ r row, tokenize r = Returned row)
         ["1/2/20, 10:00 - Messages are end-to-end encrypted ";
          "1/2/20, 10:01 - Alice: listen, really - now: https://open.spotify.com/track/abc "]
         rows)
  ∧ convert_to_dataframe ["1/2/20, 10:00 - Alice: hi "; "1/2/20 10:01 Bob hi "]
    = Raised IndexError.
Proof.
  split.
  - apply (proj1 (tokenization_needs_separators _)). repeat constructor.
  - apply (proj2 (tokenization_needs_separators _)).
    apply Exists_cons_tl, Exists_cons_hd. reflexivity.
Defined.

(** C2 does not hold without the amendment: one record without [', ']
    or without [' - '] stops the whole run. *)
Lemma malformed_record_aborts_run :
  tokenize "1/2/20 10:01 Bob hi " = Raised IndexError
  ∧ tokenize "1/2/20, 10:01 Bob hi " = Raised IndexError
  ∧ convert_to_dataframe ["1/2/20, 10:00 - Alice: hi "; "1/2/20 10:01 Bob hi "]
    = Raised IndexError.
Proof. repeat split; reflexivity. Qed.

Lemma count_one_split sep s :
  sep ≠ "" → Str.count sep s = 1%nat →
  ∃ a b, Str.split sep s = [a; b] ∧ s = a +:+ sep +:+ b.
Proof.
  intros Hsep Hcount.
  pose proof (split_from_count sep 0 s) as Hlen.
  fold (Str.split sep s) in Hlen. fold (Str.count sep s) in Hlen. rewrite Hcount in Hlen.
  destruct (Str.split sep s) as [|a [|b [|c l]]] eqn:Hs; try done.
  exists a, b. split; [done |]. by apply split_two.
Qed.

(** C9: when each separator occurs exactly once in the text its split is
    applied to, the tokenizer returns fields from which
    [date + ", " + time + " - " + sender + ": " + body] rebuilds the
    record. *)
Theorem tokenize_round_trip record :
  Str.count ", " record = 1%nat →
  Str.count " - " (rest_after ", " record) = 1%nat →
  Str.count ": " (rest_after " - " (rest_after ", " record)) = 1%nat →
  ∃ m, tokenize record = Returned m
       ∧ Date m +:+ ", " +:+ Time m +:+ " - " +:+ Sender m +:+ ": " +:+ Body m = record.
Proof.
  intros H1 H2 H3.
  destruct (count_one_split ", " record) as (date & rest1 & Hs1 & Hrecord); [done | done |].
  assert (rest_after ", " record = rest1) as Hr1.
  { unfold rest_after. rewrite Hs1. simpl. apply append_nil_r. }
  rewrite Hr1 in H2, H3.
  destruct (count_one_split " - " rest1) as (time & rest2 & Hs2 & Hrest1); [done | done |].
  assert (rest_after " - " rest1 = rest2) as Hr2.
  { unfold rest_after. rewrite Hs2. simpl. apply append_nil_r. }
  rewrite Hr2 in H3.
  destruct (count_one_split ": " rest2) as (sender & body & Hs3 & Hrest2); [done | done |].
  exists (Message date time sender body). split.
  - unfold tokenize. rewrite Hs1. simpl. rewrite Hs2. simpl. rewrite Hs3. done.
  - simpl. by rewrite <- Hrest2, <- Hrest1.
Qed.

(** A record without a sender marker is outside C9: the rebuilt text
    gains a [": "] the record never had. *)
Lemma senderless_record_rebuilt :
  tokenize "1/2/20, 10:00 - Messages are end-to-end encrypted"
  = Returned (Message "1/2/20" "10:00" "" "Messages are end-to-end encrypted")
  ∧ "1/2/20" +:+ ", " +:+ "10:00" +:+ " - " +:+ "" +:+ ": "
      +:+ "Messages are end-to-end encrypted"
    ≠ "1/2/20, 10:00 - Messages are end-to-end encrypted".
Proof. split; [reflexivity | discriminate]. Qed.

Lemma tokenize_round_trip_witness :
  ∃ m, tokenize "1/2/20, 10:00 - Alice: check this https://open.spotify.com/track/abc123"
       = Returned m
       ∧ Date m +:+ ", " +:+ Time m +:+ " - " +:+ Sender m +:+ ": " +:+ Body m
         = "1/2/20, 10:00 - Alice: check this https://open.spotify.com/track/abc123".
Proof.
  apply (tokenize_round_trip
           "1/2/20, 10:00 - Alice: check this https://open.spotify.com/track/abc123");
    reflexivity.
Defined.

(** *** Further properties of [tokenize] and [convert_to_dataframe] *)

Import SplitFacts.

(** The fields [tokenize] returns, in closed form. *)
Lemma tokenize_fields record m :
  tokenize record = Returned m →
  Str.contains ", " record = true
  ∧ Str.contains " - " (rest_after ", " record) = true
  ∧ Date m = hd "" (Str.split ", " record)
  ∧ Time m = hd "" (Str.split " - " (rest_after ", " record))
  ∧ (if Str.contains ": " (rest_after " - " (rest_after ", " record))
     then Sender m = hd "" (Str.split ": " (rest_after " - " (rest_after ", " record)))
          ∧ Body m = rest_after ": " (rest_after " - " (rest_after ", " record))
     else Sender m = ""
          ∧ Body m = rest_after " - " (rest_after ", " record)).
Proof.
  intros H.
  destruct (has_separators record) eqn:Hs; [| by rewrite tokenize_unseparated in H].
  unfold has_separators in Hs. apply andb_true_iff in Hs as [H1 H2].
  split; [done |]. split; [done |].
  unfold tokenize in H.
  rewrite index_1_split, H1 in H by done.
  change (Returned ?x ≫= ?f) with (f x) in H. cbv beta in H.
  rewrite index_1_split, H2 in H by done.
  change (Returned ?x ≫= ?f) with (f x) in H. cbv beta in H.
  set (rest2 := rest_after " - " (rest_after ", " record)) in *.
  pose proof (split_nonempty ": " rest2) as Hne.
  pose proof (split_length ": " rest2) as Hlen.
  pose proof (split_no_occurrence ": " rest2) as Hnone.
  change (rest_after ": " rest2) with (Str.join (drop 1 (Str.split ": " rest2))).
  destruct (Str.split ": " rest2) as [|a [|b s3]]; [done | |].
  - change (length [a] =? 1)%nat with true in H. cbv beta iota in H.
    change (index [a] 0) with (Returned a) in H.
    do 2 (change (Returned ?x ≫= ?f) with (f x) in H; cbv beta in H).
    rewrite !index_0_nonempty in H by (apply merge_tail_nonempty; done || apply split_nonempty).
    do 3 (change (Returned ?x ≫= ?f) with (f x) in H; cbv beta in H).
    change (index (merge_tail [""; a]) 1) with (Returned a) in H.
    change (Returned ?x ≫= ?f) with (f x) in H; cbv beta in H.
    injection H as <-. simpl. rewrite !hd_merge_tail.
    destruct (Str.contains ": " rest2).
    + destruct Hlen as [_ Hlen]; [done |]. specialize (Hlen eq_refl). simpl in Hlen. lia.
    + specialize (Hnone ltac:(done) eq_refl). by injection Hnone as ->.
  - change (length (a :: b :: s3) =? 1)%nat with false in H. cbv beta iota in H.
    change (Returned ?x ≫= ?f) with (f x) in H; cbv beta in H.
    rewrite !index_0_nonempty in H by (apply merge_tail_nonempty; done || apply split_nonempty).
    do 3 (change (Returned ?x ≫= ?f) with (f x) in H; cbv beta in H).
    rewrite index_1_merge_tail in H.
    change (2 <=? length (a :: b :: s3))%nat with true in H. cbv beta iota in H.
    change (Returned ?x ≫= ?f) with (f x) in H; cbv beta in H.
    injection H as <-. simpl. rewrite !hd_merge_tail.
    destruct (Str.contains ": " rest2); [done |].
    specialize (Hnone ltac:(done) eq_refl). discriminate Hnone.
Qed.

(** X6: the data frame [convert_to_dataframe] returns has one row per
    record, in record order, and each row is what [tokenize] makes of its
    record. *)
Theorem convert_to_dataframe_rows text rows :
  convert_to_dataframe text = Returned rows →
  Forall2 (λ record row, tokenize record = Returned row) text rows.
Proof.
  unfold convert_to_dataframe. intros H.
  by destruct (for_each_append_inv tokenize _ _ _ H) as (ys & -> & Hys).
Qed.

Lemma convert_to_dataframe_rows_witness :
  Forall2 (λ record row, tokenize record = Returned row)
    ["1/2/20, 10:00 - A: hi "; "3/2/20, 11:00 - joined "]
    [Message "1/2/20" "10:00" "A" "hi "; Message "3/2/20" "11:00" "" "joined "].
Proof.
  apply (convert_to_dataframe_rows ["1/2/20, 10:00 - A: hi "; "3/2/20, 11:00 - joined "]).
  reflexivity.
Defined.

(** X7: the date field is the text before the first [', '] of the record:
    the record starts with it, followed by [', '], and the field itself
    holds no [', ']. *)
Theorem tokenize_date_prefix record m :
  tokenize record = Returned m →
  Str.contains ", " (Date m) = false
  ∧ ∃ rest, record = Date m +:+ ", " +:+ rest.
Proof.
  intros H. destruct (tokenize_fields _ _ H) as (H1 & _ & -> & _).
  split; [by apply hd_split_clean |].
  apply split_length in H1; [| done].
  pose proof (join_with_split ", " record ltac:(done)) as Hjoin.
  destruct (Str.split ", " record) as [|date [|piece pieces]];
    [simpl in H1; lia | simpl in H1; lia |].
  rewrite join_with_cons in Hjoin by done. by eexists.
Qed.

Lemma tokenize_date_prefix_witness :
  Str.contains ", " "1/2/20" = false
  ∧ ∃ rest, "1/2/20, 10:00 - A: one, two" = "1/2/20" +:+ ", " +:+ rest.
Proof.
  apply (tokenize_date_prefix "1/2/20, 10:00 - A: one, two"
           (Message "1/2/20" "10:00" "A" "onetwo")).
  reflexivity.
Defined.

Lemma rest_after_remove sep s :
  sep ≠ "" →
  Str.contains sep s = true →
  ∃ after, s = hd "" (Str.split sep s) +:+ sep +:+ after
           ∧ rest_after sep s = Str.remove sep after.
Proof.
  intros Hsep Hc. apply split_length in Hc; [| done]. unfold rest_after.
  destruct (Str.split sep s) as [|piece [|piece' pieces]] eqn:Hs;
    [simpl in Hc; lia | simpl in Hc; lia |].
  destruct (split_first sep s Hsep _ _ Hs ltac:(done)) as (after & Hafter & Hpieces).
  exists after. split; [done |].
  change (drop 1 (piece :: piece' :: pieces)) with (piece' :: pieces).
  rewrite Hpieces. apply join_split.
Qed.

(** X8: what [tokenize] keeps of a record.  The record is the date, one
    [', '] and some text; the time is what precedes the first [' - '] of
    that text with every [', '] removed; the sender is what precedes the
    first [': '] of the text after the time with every [' - '] removed
    (empty when it holds no [': ']); the body is the text after that with
    every [': '] removed.  So each separator is deleted wherever it
    occurs again, and nothing else is. *)
Theorem tokenize_drops_every_separator record m :
  tokenize record = Returned m →
  ∃ after_date after_time,
    record = Date m +:+ ", " +:+ after_date
    ∧ Str.contains ", " (Date m) = false
    ∧ Str.remove ", " after_date = Time m +:+ " - " +:+ after_time
    ∧ Str.contains " - " (Time m) = false
    ∧ if Str.contains ": " (Str.remove " - " after_time)
      then ∃ after_sender,
             Str.remove " - " after_time = Sender m +:+ ": " +:+ after_sender
             ∧ Str.contains ": " (Sender m) = false
             ∧ Body m = Str.remove ": " after_sender
      else Sender m = "" ∧ Body m = Str.remove " - " after_time.
Proof.
  intros H. destruct (tokenize_fields _ _ H) as (H1 & H2 & -> & -> & Hsb).
  destruct (rest_after_remove ", " record ltac:(done) H1) as (after_date & Hrecord & Hr1).
  rewrite Hr1 in H2, Hsb |- *.
  destruct (rest_after_remove " - " (Str.remove ", " after_date) ltac:(done) H2)
    as (after_time & Hrest1 & Hr2).
  rewrite Hr2 in Hsb.
  exists after_date, after_time.
  split_and!; [done | by apply hd_split_clean | done | by apply hd_split_clean |].
  destruct (Str.contains ": " (Str.remove " - " after_time)) eqn:Hc.
  - destruct Hsb as [-> ->].
    destruct (rest_after_remove ": " (Str.remove " - " after_time) ltac:(done) Hc)
      as (after_sender & Hrest2 & Hr3).
    exists after_sender. split_and!; [done | by apply hd_split_clean | done].
  - done.
Qed.

Lemma tokenize_drops_every_separator_witness :
  ∃ after_date after_time,
    "1/2/20, 10:00 - A: one, two - three: four"
    = Date (Message "1/2/20" "10:00" "A" "onetwothreefour") +:+ ", " +:+ after_date
    ∧ Str.contains ", " (Date (Message "1/2/20" "10:00" "A" "onetwothreefour")) = false
    ∧ Str.remove ", " after_date
      = Time (Message "1/2/20" "10:00" "A" "onetwothreefour") +:+ " - " +:+ after_time
    ∧ Str.contains " - " (Time (Message "1/2/20" "10:00" "A" "onetwothreefour")) = false
    ∧ if Str.contains ": " (Str.remove " - " after_time)
      then ∃ after_sender,
             Str.remove " - " after_time
             = Sender (Message "1/2/20" "10:00" "A" "onetwothreefour") +:+ ": " +:+ after_sender
             ∧ Str.contains ": " (Sender (Message "1/2/20" "10:00" "A" "onetwothreefour")) = false
             ∧ Body (Message "1/2/20" "10:00" "A" "onetwothreefour")
               = Str.remove ": " after_sender
      else Sender (Message "1/2/20" "10:00" "A" "onetwothreefour") = ""
           ∧ Body (Message "1/2/20" "10:00" "A" "onetwothreefour")
             = Str.remove " - " after_time.
Proof.
  apply (tokenize_drops_every_separator "1/2/20, 10:00 - A: one, two - three: four"
           (Message "1/2/20" "10:00" "A" "onetwothreefour")).
  reflexivity.
Defined.

(** X9: a record whose text after the time holds no [': '] gets an empty
    sender and that whole text as its body; with a [': '] the sender is
    the text before the first one and holds no [': '] itself. *)
Theorem tokenize_sender record m :
  tokenize record = Returned m →
  (Str.contains ": " (rest_after " - " (rest_after ", " record)) = false →
     Sender m = "" ∧ Body m = rest_after " - " (rest_after ", " record))
  ∧ (Str.contains ": " (rest_after " - " (rest_after ", " record)) = true →
     Str.contains ": " (Sender m) = false
     ∧ ∃ rest, rest_after " - " (rest_after ", " record) = Sender m +:+ ": " +:+ rest).
Proof.
  intros H. destruct (tokenize_fields _ _ H) as (_ & _ & _ & _ & Hsb).
  split; intros Hc; rewrite Hc in Hsb; [done |].
  destruct Hsb as [-> _]. split; [by apply hd_split_clean |].
  apply split_length in Hc; [| done].
  pose proof (join_with_split ": " (rest_after " - " (rest_after ", " record)) ltac:(done))
    as Hjoin.
  destruct (Str.split ": " (rest_after " - " (rest_after ", " record)))
    as [|sender [|piece pieces]]; [simpl in Hc; lia | simpl in Hc; lia |].
  rewrite join_with_cons in Hjoin by done. by eexists.
Qed.

Lemma tokenize_sender_witness :
  Sender (Message "1/2/20" "10:00" "" "Messages are end-to-end encrypted ") = ""
  ∧ Body (Message "1/2/20" "10:00" "" "Messages are end-to-end encrypted ")
    = rest_after " - " (rest_after ", " "1/2/20, 10:00 - Messages are end-to-end encrypted ").
Proof.
  apply (tokenize_sender "1/2/20, 10:00 - Messages are end-to-end encrypted "
           (Message "1/2/20" "10:00" "" "Messages are end-to-end encrypted ")).
  - reflexivity.
  - reflexivity.
Defined.

(** X10: [format_whatsapp_conversation] on a transcript that is one
    message per line, every line holding [', '] and then [' - ']: the data
    frame has one row per line, the row [tokenize] makes of the line with
    its line feed turned into a space. *)
Theorem format_whatsapp_conversation_unwrapped first_line lines :
  Forall (λ line, is_date_start (replace_newline line) = true) lines →
  Forall (λ line, has_separators (replace_newline line) = true) (first_line :: lines) →
  ∃ rows,
    format_whatsapp_conversation (first_line :: lines) = Returned rows
    ∧ Forall2 (λ line row, tokenize (replace_newline line) = Returned row)
        (first_line :: lines) rows.
Proof.
  intros Hdates Hseps. unfold format_whatsapp_conversation, replace_enters.
  rewrite fmap_cons, Reassembly.format_messages_cons.
  rewrite Reassembly.reassemble_all_dated by by apply Forall_fmap.
  change (Returned ?x ≫= ?f) with (f x). cbv beta.
  destruct (Forall_returned_Forall2 tokenize (replace_newline <$> first_line :: lines))
    as [rows Hrows].
  { apply Forall_fmap. eapply Forall_impl; [exact Hseps |].
    intros line. apply tokenize_separated. }
  exists rows. split.
  - unfold convert_to_dataframe.
    by rewrite <- fmap_cons, (for_each_append_returned tokenize _ rows).
  - by apply Forall2_fmap_l in Hrows.
Qed.

Lemma format_whatsapp_conversation_unwrapped_witness :
  ∃ rows,
    format_whatsapp_conversation
      ["1/2/20, 10:00 - A: hi" +:+ line_feed;
       "3/2/20, 11:00 - B: yo" +:+ line_feed] = Returned rows
    ∧ Forall2 (λ line row, tokenize (replace_newline line) = Returned row)
        ["1/2/20, 10:00 - A: hi" +:+ line_feed;
         "3/2/20, 11:00 - B: yo" +:+ line_feed] rows.
Proof.
  apply (format_whatsapp_conversation_unwrapped
           ("1/2/20, 10:00 - A: hi" +:+ line_feed)
           ["3/2/20, 11:00 - B: yo" +:+ line_feed]);
    repeat constructor.
Defined.

End Tokenizer.

(** ** Links: URL to URI and album expansion *)

Module Links.
Import StrFacts.

Lemma index_1_split_nth sep s :
  sep ≠ "" →
  index (Str.split sep s) 1
  = if Str.contains sep s then Returned (nth 1 (Str.split sep s) "") else Raised IndexError.
Proof.
  intros Hsep. pose proof (split_length sep s Hsep) as Hlen. unfold index.
  destruct (Str.split sep s) as [|a [|b l]]; simpl in *.
  - destruct (Str.contains sep s); [| done]. destruct Hlen as [_ Hlen]. specialize (Hlen eq_refl). lia.
  - destruct (Str.contains sep s); [| done]. destruct Hlen as [_ Hlen]. specialize (Hlen eq_refl). lia.
  - destruct (Str.contains sep s); [done |]. destruct Hlen as [Hlen _].
    assert (false = true) by (apply Hlen; lia). done.
Qed.

Lemma url_to_uri_shaped url :
  link_shape url = true → ∃ uri, url_to_uri url = Returned uri.
Proof.
  unfold link_shape. intros [H1 H2]%andb_true_iff. unfold url_to_uri.
  fold host. rewrite index_1_split_nth, H1 by done. fold (after_host url).
  change (Returned ?x ≫= ?f) with (f x); cbv beta.
  rewrite index_1_split_nth, H2 by done.
  change (Returned ?x ≫= ?f) with (f x); cbv beta.
  pose proof (split_nonempty "?" (nth 1 (Str.split "/" (after_host url)) "")).
  pose proof (split_nonempty "/" (after_host url)).
  destruct (Str.split "?" _) as [|sub_string_3 ?]; [done |].
  destruct (Str.split "/" (after_host url)) as [|kind ?]; [done |].
  eauto.
Qed.

Lemma url_to_uri_unshaped url :
  link_shape url = false → url_to_uri url = Raised IndexError.
Proof.
  unfold link_shape. intros H. unfold url_to_uri.
  fold host. rewrite index_1_split_nth by done. fold (after_host url).
  destruct (Str.contains host url); [| done]. simpl in H.
  change (Returned ?x ≫= ?f) with (f x); cbv beta.
  by rewrite index_1_split_nth, H.
Qed.

Lemma url_to_uri_outcome url :
  (∃ uri, url_to_uri url = Returned uri) ∨ url_to_uri url = Raised IndexError.
Proof.
  destruct (link_shape url) eqn:H.
  - left. by apply url_to_uri_shaped.
  - right. by apply url_to_uri_unshaped.
Qed.

(** C3 (amended): one link without the host prefix, or without a ['/']
    after it, raises [IndexError] and ends the whole batch with no URI
    list; a batch in which every link has both is converted link by
    link. *)
Theorem malformed_link_aborts_batch ALBUMS catalog url_list :
  (Exists (λ url, link_shape url = false) url_list →
     convert_url_to_uri ALBUMS catalog url_list = Raised IndexError)
  ∧ (Forall (λ url, link_shape url = true) url_list →
     ∃ uri_list,
       Forall2 (λ url uri, url_to_uri url = Returned uri) url_list uri_list
       ∧ convert_url_to_uri ALBUMS catalog url_list
         = if ALBUMS then convert_albums_to_tracks catalog uri_list else Returned uri_list).
Proof.
  unfold convert_url_to_uri. split.
  - intros Hex. rewrite (for_each_append_raised url_to_uri IndexError); [done | |].
    + apply Forall_forall. intros url _. apply url_to_uri_outcome.
    + eapply Exists_impl; [exact Hex |]. intros url. apply url_to_uri_unshaped.
  - intros Hall.
    destruct (Forall_returned_Forall2 url_to_uri url_list) as [uri_list Huris].
    { eapply Forall_impl; [exact Hall |]. intros url. apply url_to_uri_shaped. }
    exists uri_list. split; [done |].
    by rewrite (for_each_append_returned url_to_uri url_list uri_list).
Qed.

Lemma malformed_link_aborts_batch_witness :
  convert_url_to_uri false (λ _, AlbumDict None)
    ["https://open.spotify.com/track/abc123?si=xyz"; "https://open.spotify.com/track"]
  = Raised IndexError
  ∧ ∃ uri_list,
      Forall2 (λ url uri, url_to_uri url = Returned uri)
        ["https://open.spotify.com/track/abc123?si=xyz";
         "https://open.spotify.com/album/zzz"] uri_list
      ∧ convert_url_to_uri false (λ _, AlbumDict None)
          ["https://open.spotify.com/track/abc123?si=xyz";
           "https://open.spotify.com/album/zzz"]
        = Returned uri_list.
Proof.
  split.
  - apply (proj1 (malformed_link_aborts_batch false (λ _, AlbumDict None) _)).
    apply Exists_cons_tl, Exists_cons_hd. reflexivity.
  - apply (proj2 (malformed_link_aborts_batch false (λ _, AlbumDict None) _)).
    repeat constructor.
Defined.

(** C3 does not hold without the amendment: a link to another site ends
    the batch, and the well-formed link next to it is not converted. *)
Lemma foreign_link_aborts_batch :
  convert_url_to_uri false (λ _, AlbumDict None)
    ["https://youtu.be/dQw4w9WgXcQ"; "https://open.spotify.com/track/abc123"]
  = Raised IndexError.
Proof. reflexivity. Qed.

Lemma expansion_loop catalog albums acc out :
  for_each
    (λ track_uri_list album_uri,
       match tracks_items (catalog (album_id album_uri)) with
       | None => Raised KeyError
       | Some items =>
           Returned (track_uri_list ++ map track_uri_of_item (default [] items))
       end) acc albums = Returned out →
  out = acc ++ concat (map (album_tracks catalog) albums).
Proof.
  revert acc. induction albums as [|a albums IH]; intros acc H; simpl in H.
  - injection H as <-. simpl. by rewrite app_nil_r.
  - unfold album_tracks at 1. simpl.
    destruct (tracks_items (catalog (album_id a))) as [items|]; [| done].
    change (Returned ?x ≫= ?f) with (f x) in H; cbv beta in H.
    apply IH in H as ->. by rewrite <- app_assoc.
Qed.

(** What [convert_albums_to_tracks] returns: the inputs that contain
    ['track'], in order and unchanged, then one track URI per catalog
    member of every input that contains ['album']. *)
Lemma convert_albums_to_tracks_returned catalog uri_list out :
  convert_albums_to_tracks catalog uri_list = Returned out →
  out = filter (λ x, Str.contains "track" x = true) uri_list
        ++ concat (map (album_tracks catalog)
                     (filter (λ x, Str.contains "album" x = true) uri_list)).
Proof. apply expansion_loop. Qed.

(** C4, where the code departs from it: an album URI whose identifier
    happens to contain ['track'] passes the ['track' in x] test, so it is
    expanded and also stays in the output. *)
Theorem album_uri_containing_track_is_kept catalog uri_list album_uri out :
  album_uri ∈ uri_list →
  String.prefix "spotify:album:" album_uri = true →
  Str.contains "track" album_uri = true →
  convert_albums_to_tracks catalog uri_list = Returned out →
  album_uri ∈ out.
Proof.
  intros Hin _ Htrack Hout.
  rewrite (convert_albums_to_tracks_returned _ _ _ Hout).
  apply elem_of_app. left. by apply list_elem_of_filter.
Qed.

Lemma album_uri_containing_track_is_kept_witness :
  convert_albums_to_tracks
    (λ _, AlbumDict (Some (Some [AlbumItem (Some "t1"); AlbumItem (Some "t2")])))
    ["spotify:album:4trackQ2m9"]
  = Returned ["spotify:album:4trackQ2m9"; "spotify:track:t1"; "spotify:track:t2"]
  ∧ "spotify:album:4trackQ2m9"
    ∈ ["spotify:album:4trackQ2m9"; "spotify:track:t1"; "spotify:track:t2"].
Proof.
  split; [reflexivity |].
  apply (album_uri_containing_track_is_kept
           (λ _, AlbumDict (Some (Some [AlbumItem (Some "t1"); AlbumItem (Some "t2")])))
           ["spotify:album:4trackQ2m9"]).
  - apply list_elem_of_here.
  - reflexivity.
  - reflexivity.
  - reflexivity.
Defined.

(** The scenario of the specification: [album:zzz] with members [t1, t2]. *)
Lemma album_expansion_scenario :
  convert_albums_to_tracks
    (λ _, AlbumDict (Some (Some [AlbumItem (Some "t1"); AlbumItem (Some "t2")])))
    ["spotify:album:zzz"]
  = Returned ["spotify:track:t1"; "spotify:track:t2"].
Proof. reflexivity. Qed.

(** *** Further properties of the link steps *)

Import SplitFacts.

(** The conversion of a link of the documented shape. *)
Lemma url_to_uri_canonical kind id query :
  Str.contains "/" kind = false →
  Str.contains "/" id = false →
  Str.contains "?" id = false →
  query = "" ∨ (∃ q, query = "?" +:+ q) →
  Str.contains host (kind +:+ "/" +:+ id +:+ query) = false →
  url_to_uri (host +:+ kind +:+ "/" +:+ id +:+ query)
  = Returned ("spotify:" +:+ kind +:+ ":" +:+ id).
Proof.
  intros Hkind Hid Hidq Hquery Hhost.
  assert (Str.split host (host +:+ kind +:+ "/" +:+ id +:+ query)
          = [""; kind +:+ "/" +:+ id +:+ query]) as Hs1.
  { rewrite split_prefix by done. by rewrite split_no_occurrence. }
  assert (Str.split "/" (kind +:+ "/" +:+ id +:+ query)
          = kind :: Str.split "/" (id +:+ query)) as Hs2.
  { change ("/" +:+ id +:+ query) with (String "/" (id +:+ query)).
    by apply split_char_append. }
  assert (hd "" (Str.split "?" (hd "" (Str.split "/" (id +:+ query)))) = id) as Hs3.
  { rewrite (hd_split_char_append "/") by done.
    rewrite (hd_split_char_append "?") by done.
    destruct Hquery as [-> | [q ->]].
    - simpl. apply append_nil_r.
    - change ("?" +:+ q) with (String "?" q).
      rewrite (split_off_separator "/") by done.
      pose proof (split_nonempty "/" q).
      destruct (Str.split "/" q) as [|piece pieces]; [done |].
      unfold hd at 2.
      change (String "?" piece) with ("?" +:+ piece).
      rewrite (split_prefix "?") by done. simpl. apply append_nil_r. }
  unfold url_to_uri. fold host. rewrite Hs1.
  change (index [""; ?t] 1) with (Returned t).
  change (Returned ?x ≫= ?f) with (f x); cbv beta.
  rewrite Hs2.
  pose proof (split_nonempty "/" (id +:+ query)) as Hne.
  destruct (Str.split "/" (id +:+ query)) as [|with_query rest]; [done |].
  change (index (kind :: with_query :: rest) 1) with (Returned with_query).
  change (Returned ?x ≫= ?f) with (f x); cbv beta.
  unfold hd at 2 in Hs3.
  pose proof (split_nonempty "?" with_query) as Hne'.
  destruct (Str.split "?" with_query) as [|sub_string_3 rest']; [done |].
  simpl in Hs3. subst sub_string_3. reflexivity.
Qed.

(** X11: a link [https://open.spotify.com/<kind>/<id>], with or without a
    [?<query>] behind it, becomes [spotify:<kind>:<id>]; the query is
    dropped.  [kind] and [id] hold no ['/'], [id] holds no ['?'], and the
    host prefix occurs only once. *)
Theorem url_to_uri_of_link kind id query :
  Str.contains "/" kind = false →
  Str.contains "/" id = false →
  Str.contains "?" id = false →
  query = "" ∨ (∃ q, query = "?" +:+ q) →
  Str.contains host (kind +:+ "/" +:+ id +:+ query) = false →
  url_to_uri ("https://open.spotify.com/" +:+ kind +:+ "/" +:+ id +:+ query)
  = Returned ("spotify:" +:+ kind +:+ ":" +:+ id).
Proof. apply url_to_uri_canonical. Qed.

Lemma url_to_uri_of_link_witness :
  url_to_uri "https://open.spotify.com/track/abc123?si=xyz/9" = Returned "spotify:track:abc123".
Proof.
  apply (url_to_uri_of_link "track" "abc123" "?si=xyz/9"); try reflexivity.
  right. by exists "si=xyz/9".
Defined.

Lemma elem_of_concat {A} (x : A) (ls : list (list A)) :
  x ∈ concat ls ↔ ∃ l, x ∈ l ∧ l ∈ ls.
Proof.
  rewrite list_elem_of_In, in_concat. split.
  - intros (l & Hl & Hx). exists l. by rewrite !list_elem_of_In.
  - intros (l & Hx & Hl). exists l. by rewrite <- !list_elem_of_In.
Qed.

Lemma split_char_pieces ch s :
  Forall (λ piece, Str.contains (String ch "") piece = false) (Str.split (String ch "") s).
Proof.
  induction s as [|c s IH]; [by constructor |].
  destruct (String.prefix (String ch "") (String c s)) eqn:Hp.
  - rewrite prefix_cons, prefix_nil_l, andb_true_r in Hp.
    apply bool_decide_eq_true in Hp as <-.
    change (String ch s) with (String ch "" +:+ s).
    rewrite split_prefix by done. by constructor.
  - rewrite split_off_separator by done.
    rewrite prefix_cons, prefix_nil_l, andb_true_r in Hp.
    pose proof (split_nonempty (String ch "") s).
    destruct (Str.split (String ch "") s) as [|piece pieces]; [done |].
    apply Forall_cons in IH as [Hpiece Hpieces].
    constructor; [| done]. by rewrite contains_char_cons, Hp, Hpiece.
Qed.

(** X12: every link [obtain_all_urls] returns is a piece of some selected
    message between two spaces, contains ['https://'] and holds no space;
    nothing else about it is checked. *)
Theorem obtain_all_urls_tokens rows urls :
  obtain_all_urls (Frame rows) = Returned urls →
  Forall (λ url,
            Str.contains "https://" url = true
            ∧ Str.contains " " url = false
            ∧ ∃ row, row ∈ rows ∧ url ∈ Str.split " " (Body row)) urls.
Proof.
  intros [= <-]. apply Forall_forall. intros url Hurl.
  apply elem_of_concat in Hurl as (l & Hurl & Hl).
  apply list_elem_of_fmap in Hl as (row & -> & Hrow).
  apply list_elem_of_filter in Hurl as [Hhttps Hpiece].
  split_and!; [done | | by exists row].
  pose proof (split_char_pieces " " (Body row)) as Hall.
  rewrite Forall_forall in Hall. by apply Hall.
Qed.

Lemma obtain_all_urls_tokens_witness :
  Forall (λ url,
            Str.contains "https://" url = true
            ∧ Str.contains " " url = false
            ∧ ∃ row, row ∈ [Message "1/2/20" "10:00" "A"
                              "look https://youtu.be/x and https://open.spotify.com/track/abc "]
                     ∧ url ∈ Str.split " " (Body row))
    ["https://youtu.be/x"; "https://open.spotify.com/track/abc"].
Proof.
  apply (obtain_all_urls_tokens
           [Message "1/2/20" "10:00" "A"
              "look https://youtu.be/x and https://open.spotify.com/track/abc "]).
  reflexivity.
Defined.

(** X13: a piece of a selected message that contains ['https://'] but not
    the shape [url_to_uri] needs (any link to another site, for one) is
    extracted like the Spotify links, and the conversion of the whole
    list then raises [IndexError]. *)
Theorem foreign_link_in_message_aborts albums catalog rows row token :
  row ∈ rows →
  token ∈ Str.split " " (Body row) →
  Str.contains "https://" token = true →
  link_shape token = false →
  ∃ urls,
    obtain_all_urls (Frame rows) = Returned urls
    ∧ convert_url_to_uri albums catalog urls = Raised IndexError.
Proof.
  intros Hrow Htoken Hhttps Hshape. eexists. split; [reflexivity |].
  unfold convert_url_to_uri.
  rewrite (for_each_append_raised url_to_uri IndexError); [done | |].
  - apply Forall_forall. intros url _. apply url_to_uri_outcome.
  - apply Exists_exists. exists token. split; [| by apply url_to_uri_unshaped].
    apply elem_of_concat. exists (urls_of_message (Body row)). split.
    + by apply list_elem_of_filter.
    + apply list_elem_of_fmap. by exists row.
Qed.

Lemma foreign_link_in_message_aborts_witness :
  ∃ urls,
    obtain_all_urls
      (Frame [Message "1/2/20" "10:00" "A"
                "look https://youtu.be/x and https://open.spotify.com/track/abc "])
    = Returned urls
    ∧ convert_url_to_uri false (λ _, AlbumDict None) urls = Raised IndexError.
Proof.
  apply (foreign_link_in_message_aborts false (λ _, AlbumDict None)
           [Message "1/2/20" "10:00" "A"
              "look https://youtu.be/x and https://open.spotify.com/track/abc "]
           (Message "1/2/20" "10:00" "A"
              "look https://youtu.be/x and https://open.spotify.com/track/abc ")
           "https://youtu.be/x").
  - apply list_elem_of_here.
  - vm_compute. apply list_elem_of_further, list_elem_of_here.
  - reflexivity.
  - reflexivity.
Defined.

(** X14: with tracks and albums both enabled, a message that matches both
    patterns is selected twice, once among the track matches and once
    among the album matches. *)
Theorem select_rows_selects_twice str_contains p df row :
  TRACKS p = true →
  ALBUMS p = true →
  row ∈ df →
  str_contains (TRACK_URL p) (Body row) = true →
  str_contains (ALBUM_URL p) (Body row) = true →
  ∃ l1 l2 l3, select_rows str_contains p df = Frame (l1 ++ row :: l2 ++ row :: l3).
Proof.
  intros Ht Ha Hrow Htrack Halbum. unfold select_rows. rewrite Ht, Ha. simpl.
  assert (row ∈ filter (λ row, str_contains (TRACK_URL p) (Body row) = true) df) as H1
    by by apply list_elem_of_filter.
  assert (row ∈ filter (λ row, str_contains (ALBUM_URL p) (Body row) = true) df) as H2
    by by apply list_elem_of_filter.
  apply list_elem_of_split in H1 as (l1 & l2 & ->).
  apply list_elem_of_split in H2 as (m1 & m2 & ->).
  exists l1, (l2 ++ m1), m2. by rewrite <- !app_assoc.
Qed.

Lemma select_rows_selects_twice_witness :
  ∃ l1 l2 l3,
    select_rows Str.contains
      (Parameters true true "open.spotify.com/track" "open.spotify.com/album" "Shared songs")
      [Message "1/2/20" "10:00" "A"
         "https://open.spotify.com/track/abc https://open.spotify.com/album/zzz "]
    = Frame (l1 ++ Message "1/2/20" "10:00" "A"
                     "https://open.spotify.com/track/abc https://open.spotify.com/album/zzz "
                :: l2 ++ Message "1/2/20" "10:00" "A"
                           "https://open.spotify.com/track/abc https://open.spotify.com/album/zzz "
                :: l3).
Proof.
  apply (select_rows_selects_twice Str.contains
           (Parameters true true "open.spotify.com/track" "open.spotify.com/album"
              "Shared songs")).
  - reflexivity.
  - reflexivity.
  - apply list_elem_of_here.
  - reflexivity.
  - reflexivity.
Defined.

(** X15: with tracks and albums both disabled [select_rows] returns the
    column-less [pd.DataFrame()], so [obtain_all_urls] raises [KeyError]
    on [df['Message']] and [main] sends no request, whatever the
    transcript holds. *)
Theorem main_without_kinds_raises str_contains p catalog acct raw_text df :
  TRACKS p = false →
  ALBUMS p = false →
  format_whatsapp_conversation raw_text = Returned df →
  main str_contains p catalog acct raw_text = Raised KeyError.
Proof.
  intros Ht Ha Hdf. unfold main. rewrite Hdf.
  change (Returned ?x ≫= ?f) with (f x); cbv beta.
  unfold select_rows. by rewrite Ht, Ha.
Qed.

Lemma main_without_kinds_raises_witness :
  main Str.contains (Parameters false false "track" "album" "Shared songs")
    (λ _, AlbumDict None) (Account [] [])
    ["1/2/20, 10:00 - A: https://open.spotify.com/track/abc "]
  = Raised KeyError.
Proof.
  apply (main_without_kinds_raises Str.contains
           (Parameters false false "track" "album" "Shared songs")
           (λ _, AlbumDict None) (Account [] [])
           ["1/2/20, 10:00 - A: https://open.spotify.com/track/abc "]
           [Message "1/2/20" "10:00" "A" "https://open.spotify.com/track/abc "]);
    reflexivity.
Defined.

(** *** Further properties of [convert_albums_to_tracks] *)

Lemma expansion_loop_raises catalog albums :
  Exists (λ album_uri, tracks_items (catalog (album_id album_uri)) = None) albums →
  ∀ acc,
    for_each
      (λ track_uri_list album_uri,
         match tracks_items (catalog (album_id album_uri)) with
         | None => Raised KeyError
         | Some items =>
             Returned (track_uri_list ++ map track_uri_of_item (default [] items))
         end) acc albums = Raised KeyError.
Proof.
  induction albums as [|a albums IH]; intros Hex acc; [by apply Exists_nil in Hex |].
  simpl. destruct (tracks_items (catalog (album_id a))) as [items|] eqn:Ha; [| done].
  change (Returned ?x ≫= ?f) with (f x); cbv beta.
  apply IH. apply Exists_cons in Hex as [Hex | Hex]; [congruence | done].
Qed.

Lemma expansion_loop_returns catalog albums :
  Forall (λ album_uri, tracks_items (catalog (album_id album_uri)) ≠ None) albums →
  ∀ acc,
    for_each
      (λ track_uri_list album_uri,
         match tracks_items (catalog (album_id album_uri)) with
         | None => Raised KeyError
         | Some items =>
             Returned (track_uri_list ++ map track_uri_of_item (default [] items))
         end) acc albums
    = Returned (acc ++ concat (map (album_tracks catalog) albums)).
Proof.
  induction 1 as [|a albums Ha _ IH]; intros acc; simpl; [by rewrite app_nil_r |].
  unfold album_tracks at 1.
  destruct (tracks_items (catalog (album_id a))) as [items|]; [| done].
  change (Returned ?x ≫= ?f) with (f x); cbv beta.
  rewrite IH. by rewrite <- app_assoc.
Qed.

(** X16: if the catalog answer for one URI that contains ['album'] has no
    ['tracks'] entry (an error answer, say), [convert_albums_to_tracks]
    raises [KeyError] and returns nothing, the track URIs and the other
    albums included. *)
Theorem album_without_tracks_raises catalog uri_list album_uri :
  album_uri ∈ uri_list →
  Str.contains "album" album_uri = true →
  tracks_items (catalog (album_id album_uri)) = None →
  convert_albums_to_tracks catalog uri_list = Raised KeyError.
Proof.
  intros Hin Halbum Hnone. unfold convert_albums_to_tracks.
  apply expansion_loop_raises. apply Exists_exists. exists album_uri.
  split; [| done]. by apply list_elem_of_filter.
Qed.

Lemma album_without_tracks_raises_witness :
  convert_albums_to_tracks
    (λ id, if bool_decide (id = "zzz")
           then AlbumDict None
           else AlbumDict (Some (Some [AlbumItem (Some "t1")])))
    ["spotify:track:abc"; "spotify:album:yyy"; "spotify:album:zzz"]
  = Raised KeyError.
Proof.
  apply (album_without_tracks_raises _ _ "spotify:album:zzz").
  - apply list_elem_of_further, list_elem_of_further, list_elem_of_here.
  - reflexivity.
  - reflexivity.
Defined.

(** X17: when every URI that contains ['album'] has a ['tracks'] entry in
    its catalog answer, the result is the URIs that contain ['track'], in
    their order, followed album by album by one [spotify:track:<id>] per
    listed item. *)
Theorem convert_albums_to_tracks_expands catalog uri_list :
  Forall (λ x, Str.contains "album" x = true →
               tracks_items (catalog (album_id x)) ≠ None) uri_list →
  convert_albums_to_tracks catalog uri_list
  = Returned (filter (λ x, Str.contains "track" x = true) uri_list
              ++ concat (map (album_tracks catalog)
                           (filter (λ x, Str.contains "album" x = true) uri_list))).
Proof.
  intros Hall. unfold convert_albums_to_tracks. apply expansion_loop_returns.
  apply Forall_forall. intros x [Halbum Hin]%list_elem_of_filter.
  rewrite Forall_forall in Hall. by apply Hall.
Qed.

Lemma convert_albums_to_tracks_expands_witness :
  convert_albums_to_tracks
    (λ _, AlbumDict (Some (Some [AlbumItem (Some "t1"); AlbumItem None])))
    ["spotify:album:zzz"; "spotify:track:abc"]
  = Returned
      (filter (λ x, Str.contains "track" x = true) ["spotify:album:zzz"; "spotify:track:abc"]
       ++ concat (map (album_tracks
                         (λ _, AlbumDict (Some (Some [AlbumItem (Some "t1"); AlbumItem None]))))
                    (filter (λ x, Str.contains "album" x = true)
                       ["spotify:album:zzz"; "spotify:track:abc"]))).
Proof.
  apply (convert_albums_to_tracks_expands
           (λ _, AlbumDict (Some (Some [AlbumItem (Some "t1"); AlbumItem None])))
           ["spotify:album:zzz"; "spotify:track:abc"]).
  repeat constructor; done.
Defined.

(** X18: every URI [convert_albums_to_tracks] returns contains ['track'];
    an input that contains neither ['track'] nor ['album'] (a playlist or
    artist URI) is dropped without notice. *)
Theorem convert_albums_to_tracks_only_tracks catalog uri_list out :
  convert_albums_to_tracks catalog uri_list = Returned out →
  Forall (λ x, Str.contains "track" x = true) out
  ∧ ∀ x, x ∈ uri_list → Str.contains "track" x = false → x ∉ out.
Proof.
  intros H. apply convert_albums_to_tracks_returned in H as ->.
  assert (Forall (λ x, Str.contains "track" x = true)
            (concat (map (album_tracks catalog)
                       (filter (λ x, Str.contains "album" x = true) uri_list)))) as Hexp.
  { apply Forall_forall. intros x (l & Hx & Hl)%elem_of_concat.
    apply list_elem_of_fmap in Hl as (a & -> & _). unfold album_tracks in Hx.
    destruct (tracks_items (catalog (album_id a))) as [items|]; [| by apply elem_of_nil in Hx].
    apply list_elem_of_fmap in Hx as (item & -> & _). reflexivity. }
  assert (Forall (λ x, Str.contains "track" x = true)
            (filter (λ x, Str.contains "track" x = true) uri_list
             ++ concat (map (album_tracks catalog)
                          (filter (λ x, Str.contains "album" x = true) uri_list)))) as Hall.
  { apply Forall_app. split; [| done].
    apply Forall_forall. by intros x [Hx _]%list_elem_of_filter. }
  split; [done |]. intros x _ Hx Hin.
  rewrite Forall_forall in Hall. apply Hall in Hin. congruence.
Qed.

Lemma convert_albums_to_tracks_only_tracks_witness :
  Forall (λ x, Str.contains "track" x = true) ["spotify:track:abc"]
  ∧ ∀ x, x ∈ ["spotify:playlist:ppp"; "spotify:track:abc"] →
         Str.contains "track" x = false → x ∉ ["spotify:track:abc"].
Proof.
  apply (convert_albums_to_tracks_only_tracks (λ _, AlbumDict None)
           ["spotify:playlist:ppp"; "spotify:track:abc"]).
  reflexivity.
Defined.



End Links.

(** ** Playlist synchronisation *)

Module Sync.

Lemma chunk_take_drop tracks counter :
  chunk tracks counter = take 100 (drop (counter * 100) tracks).
Proof. unfold chunk, slice. f_equal. lia. Qed.

Lemma div_100_spec n : (n / 100 * 100 ≤ n < (n / 100 + 1) * 100)%nat.
Proof.
  pose proof (Nat.div_mod_eq n 100). pose proof (Nat.mod_upper_bound n 100). lia.
Qed.

Lemma batch_loop_S fuel tracks counter sent :
  batch_loop (S fuel) tracks counter sent
  = if (counter * 100 <=? length tracks)%nat
    then batch_loop fuel tracks (counter + 1) (sent ++ [chunk tracks counter])
    else Returned sent.
Proof. reflexivity. Qed.

(** The loop runs for [counter = 0, ..., len(tracks) // 100] and then
    stops; the fuel [add_items_to_playlist] supplies is enough. *)
Lemma batch_loop_returns fuel :
  ∀ tracks counter sent,
    (counter ≤ length tracks / 100 + 1)%nat →
    (length tracks / 100 + 1 - counter < fuel)%nat →
    batch_loop fuel tracks counter sent
    = Returned (sent ++ map (chunk tracks) (seq counter (length tracks / 100 + 1 - counter))).
Proof.
  induction fuel as [|fuel IH]; intros tracks counter sent Hc Hfuel; [lia |].
  pose proof (div_100_spec (length tracks)) as Hdiv.
  rewrite batch_loop_S.
  destruct (Nat.leb_spec (counter * 100) (length tracks)) as [Hle | Hgt].
  - assert (counter ≤ length tracks / 100)%nat as Hc' by nia.
    rewrite IH by lia. f_equal. rewrite <- app_assoc. f_equal.
    replace (length tracks / 100 + 1 - counter)%nat
      with (S (length tracks / 100 + 1 - (counter + 1)))%nat by lia.
    rewrite <- cons_seq, Nat.add_1_r. reflexivity.
  - assert (counter = length tracks / 100 + 1)%nat as -> by nia.
    rewrite Nat.sub_diag. apply eq_sym, (f_equal Returned), app_nil_r.
Qed.

Lemma add_items_to_playlist_batches tracks :
  add_items_to_playlist tracks = Returned (batches tracks).
Proof.
  unfold add_items_to_playlist, batches.
  destruct (Nat.leb_spec (length tracks) 100); [done |].
  pose proof (div_100_spec (length tracks)).
  rewrite batch_loop_returns by lia. by rewrite Nat.sub_0_r.
Qed.

Lemma concat_chunks tracks m :
  concat (map (chunk tracks) (seq 0 m)) = take (m * 100) tracks.
Proof.
  induction m as [|m IH]; [done |].
  rewrite seq_S, map_app, concat_app, IH. simpl.
  rewrite app_nil_r, chunk_take_drop, take_take_drop. f_equal. lia.
Qed.

Lemma concat_batches tracks : concat (batches tracks) = tracks.
Proof.
  unfold batches. destruct (length tracks <=? 100)%nat; [apply app_nil_r |].
  rewrite concat_chunks. apply take_ge.
  pose proof (div_100_spec (length tracks)). lia.
Qed.

Lemma length_chunk tracks counter :
  length (chunk tracks counter) = (100 `min` (length tracks - counter * 100))%nat.
Proof. by rewrite chunk_take_drop, length_take, length_drop. Qed.

Lemma batches_page_size tracks : Forall (λ batch, (length batch ≤ 100)%nat) (batches tracks).
Proof.
  unfold batches. destruct (Nat.leb_spec (length tracks) 100).
  - by constructor.
  - apply Forall_forall. intros batch Hin.
    apply list_elem_of_fmap in Hin as (counter & -> & _).
    rewrite length_chunk. lia.
Qed.

Lemma length_batches tracks :
  (100 < length tracks)%nat → length (batches tracks) = (length tracks / 100 + 1)%nat.
Proof.
  intros H. unfold batches.
  destruct (Nat.leb_spec (length tracks) 100); [lia |].
  by rewrite length_map, length_seq.
Qed.

Lemma last_batches tracks :
  (100 < length tracks)%nat → last (batches tracks) = Some (chunk tracks (length tracks / 100)).
Proof.
  intros H. unfold batches.
  destruct (Nat.leb_spec (length tracks) 100); [lia |].
  replace (length tracks / 100 + 1)%nat with (S (length tracks / 100)) by lia.
  rewrite seq_S, map_app. simpl. by rewrite last_snoc.
Qed.

(** C5: every batch that is sent holds at most 100 tracks, the batches in
    order make up the track list again, and 250 tracks go out as batches
    of 100, 100 and 50. *)
Theorem batching_partitions_tracks tracks :
  ∃ sent,
    add_items_to_playlist tracks = Returned sent
    ∧ Forall (λ batch, (length batch ≤ 100)%nat) sent
    ∧ concat sent = tracks
    ∧ (length tracks = 250%nat → length <$> sent = [100; 100; 50]%nat).
Proof.
  exists (batches tracks).
  split_and!; [apply add_items_to_playlist_batches | apply batches_page_size
              | apply concat_batches |].
  intros Hlen. unfold batches. rewrite Hlen. simpl.
  rewrite !length_chunk, Hlen. done.
Qed.

Lemma batching_partitions_tracks_witness :
  ∃ sent,
    add_items_to_playlist (sample_tracks 250) = Returned sent
    ∧ Forall (λ batch, (length batch ≤ 100)%nat) sent
    ∧ concat sent = sample_tracks 250
    ∧ length <$> sent = [100; 100; 50]%nat.
Proof.
  destruct (batching_partitions_tracks (sample_tracks 250)) as (sent & H1 & H2 & H3 & H4).
  exists sent. split_and!; [exact H1 | exact H2 | exact H3 | apply H4; vm_compute; reflexivity].
Defined.

(** C10: a list of more than 100 tracks is sent in [len // 100 + 1]
    requests, and when its length is a multiple of 100 the last request
    carries an empty batch. *)
Theorem long_list_request_count tracks :
  (100 < length tracks)%nat →
  ∃ sent,
    add_items_to_playlist tracks = Returned sent
    ∧ length sent = (length tracks / 100 + 1)%nat
    ∧ (length tracks `mod` 100 = 0%nat → last sent = Some []).
Proof.
  intros H. exists (batches tracks).
  split_and!; [apply add_items_to_playlist_batches | by apply length_batches |].
  intros Hmod. rewrite last_batches by done. f_equal.
  apply length_zero_iff_nil. rewrite length_chunk.
  pose proof (Nat.div_mod_eq (length tracks) 100). lia.
Qed.

Lemma long_list_request_count_witness :
  ∃ sent,
    add_items_to_playlist (sample_tracks 200) = Returned sent
    ∧ length sent = 3%nat
    ∧ last sent = Some [].
Proof.
  destruct (long_list_request_count (sample_tracks 200)) as (sent & H1 & H2 & H3).
  - vm_compute. lia.
  - exists sent. split_and!; [exact H1 | exact H2 | apply H3; vm_compute; reflexivity].
Defined.

(** *** [obtain_new_tracks] and [create_playlist] *)

Lemma elem_of_obtain_new_tracks tracks already_added_tracks x :
  x ∈ obtain_new_tracks tracks already_added_tracks
  ↔ x ∈ tracks ∧ x ∉ already_added_tracks.
Proof. unfold obtain_new_tracks. rewrite elem_of_elements. set_solver. Qed.

Lemma NoDup_obtain_new_tracks tracks already_added_tracks :
  NoDup (obtain_new_tracks tracks already_added_tracks).
Proof. apply NoDup_elements. Qed.

Lemma obtain_new_tracks_covered tracks already_added_tracks :
  (∀ x, x ∈ tracks → x ∈ already_added_tracks) →
  obtain_new_tracks tracks already_added_tracks = [].
Proof.
  intros H. unfold obtain_new_tracks.
  replace ((list_to_set tracks : gset string) ∖ list_to_set already_added_tracks)
    with (∅ : gset string); [apply elements_empty |].
  apply set_eq. intros x. rewrite elem_of_difference, !elem_of_list_to_set.
  split; [set_solver | intros [Hx Hnx]; destruct Hnx; auto].
Qed.

(** X21: when the playlist exists no creation request is sent, and the
    tracks that are submitted are exactly the desired tracks that are not
    in the playlist yet, each of them once. *)
Lemma existing_playlist_additions PLAYLIST_NAME acct tracks :
  PLAYLIST_NAME ∈ playlist_names acct →
  ∃ sent,
    create_playlist PLAYLIST_NAME acct tracks = Returned (AddItems <$> sent)
    ∧ NoDup (concat sent)
    ∧ ∀ x, x ∈ concat sent ↔ x ∈ tracks ∧ x ∉ playlist_items acct.
Proof.
  intros Hin. unfold create_playlist. rewrite bool_decide_eq_true_2 by done.
  pose proof (NoDup_obtain_new_tracks tracks (playlist_items acct)) as Hnd.
  pose proof (elem_of_obtain_new_tracks tracks (playlist_items acct)) as Hel.
  destruct (obtain_new_tracks tracks (playlist_items acct)) as [|t new] eqn:Hnew.
  - exists []. split_and!; [done | constructor | done].
  - exists (batches (t :: new)).
    rewrite add_items_to_playlist_batches, concat_batches. done.
Qed.

Lemma existing_playlist_additions_witness :
  ∃ sent,
    create_playlist "Shared songs" (Account ["Shared songs"] ["spotify:track:b"])
      ["spotify:track:a"; "spotify:track:b"; "spotify:track:a"]
    = Returned (AddItems <$> sent)
    ∧ NoDup (concat sent)
    ∧ ∀ x, x ∈ concat sent
           ↔ x ∈ ["spotify:track:a"; "spotify:track:b"; "spotify:track:a"]
             ∧ x ∉ ["spotify:track:b"].
Proof.
  apply (existing_playlist_additions "Shared songs"
           (Account ["Shared songs"] ["spotify:track:b"])
           ["spotify:track:a"; "spotify:track:b"; "spotify:track:a"]).
  apply list_elem_of_here.
Defined.

(** C6, where the code departs from it: when the playlist does not exist
    yet, [create_playlist] hands the track list to [add_items_to_playlist]
    as it is, so the batches sent after the creation request make up the
    list with every repetition it holds. *)
Theorem new_playlist_submits_all_tracks PLAYLIST_NAME acct tracks :
  PLAYLIST_NAME ∉ playlist_names acct →
  ∃ sent,
    create_playlist PLAYLIST_NAME acct tracks = Returned (CreatePlaylist :: (AddItems <$> sent))
    ∧ concat sent = tracks.
Proof.
  intros Hnotin. unfold create_playlist. rewrite bool_decide_eq_false_2 by done.
  exists (batches tracks). by rewrite add_items_to_playlist_batches, concat_batches.
Qed.

Lemma new_playlist_submits_all_tracks_witness :
  ∃ sent,
    create_playlist "Shared songs" (Account ["Liked"] [])
      ["spotify:track:abc123"; "spotify:track:abc123"]
    = Returned (CreatePlaylist :: (AddItems <$> sent))
    ∧ concat sent = ["spotify:track:abc123"; "spotify:track:abc123"].
Proof.
  apply (new_playlist_submits_all_tracks "Shared songs" (Account ["Liked"] [])
           ["spotify:track:abc123"; "spotify:track:abc123"]).
  simpl. intros H. apply list_elem_of_In in H. simpl in H.
  destruct H as [H | []]. discriminate H.
Defined.

(** C7: against a playlist that holds the current tracks together with
    the additions of a first run, a second run with the same desired
    tracks finds nothing to add and sends no request. *)
Theorem second_run_adds_nothing PLAYLIST_NAME names desired current :
  PLAYLIST_NAME ∈ names →
  let to_add := obtain_new_tracks desired current in
  obtain_new_tracks desired (current ++ to_add) = []
  ∧ create_playlist PLAYLIST_NAME (Account names (current ++ to_add)) desired = Returned [].
Proof.
  intros Hin to_add.
  assert (obtain_new_tracks desired (current ++ to_add) = []) as Hnone.
  { apply obtain_new_tracks_covered. intros x Hx. apply elem_of_app.
    destruct (decide (x ∈ current)); [by left | right].
    by apply elem_of_obtain_new_tracks. }
  split; [done |].
  unfold create_playlist. rewrite bool_decide_eq_true_2 by done.
  simpl. by rewrite Hnone.
Qed.

Lemma second_run_adds_nothing_witness :
  obtain_new_tracks ["spotify:track:a"; "spotify:track:b"; "spotify:track:a"]
    (["spotify:track:b"]
     ++ obtain_new_tracks ["spotify:track:a"; "spotify:track:b"; "spotify:track:a"]
          ["spotify:track:b"]) = []
  ∧ create_playlist "Shared songs"
      (Account ["Shared songs"]
         (["spotify:track:b"]
          ++ obtain_new_tracks ["spotify:track:a"; "spotify:track:b"; "spotify:track:a"]
               ["spotify:track:b"]))
      ["spotify:track:a"; "spotify:track:b"; "spotify:track:a"] = Returned [].
Proof.
  apply (second_run_adds_nothing "Shared songs" ["Shared songs"]
           ["spotify:track:a"; "spotify:track:b"; "spotify:track:a"] ["spotify:track:b"]).
  apply list_elem_of_here.
Defined.

(** *** Further properties of [add_items_to_playlist] and [create_playlist] *)

(** X20: of a list of more than 100 tracks, request number [k] carries
    [tracks[100*k : 100*k + 100]]; every request before the last carries
    exactly 100 tracks and the last one the remaining [len % 100]. *)
Theorem batch_contents tracks sent k batch :
  (100 < length tracks)%nat →
  add_items_to_playlist tracks = Returned sent →
  sent !! k = Some batch →
  batch = take 100 (drop (k * 100) tracks)
  ∧ length batch = (if (k <? length tracks / 100)%nat then 100 else length tracks `mod` 100)%nat.
Proof.
  intros Hlen Hsent Hk. rewrite add_items_to_playlist_batches in Hsent.
  injection Hsent as <-. unfold batches in Hk.
  destruct (Nat.leb_spec (length tracks) 100); [lia |].
  change (map (chunk tracks) ?l) with (chunk tracks <$> l) in Hk.
  rewrite list_lookup_fmap in Hk.
  destruct (seq 0 (length tracks / 100 + 1) !! k) as [k'|] eqn:Hseq; [| done].
  apply lookup_seq in Hseq as [-> Hlt]. injection Hk as <-.
  split; [apply chunk_take_drop |].
  rewrite length_chunk. pose proof (Nat.div_mod_eq (length tracks) 100).
  pose proof (Nat.mod_upper_bound (length tracks) 100).
  change (0 + k)%nat with k in *.
  destruct (Nat.ltb_spec k (length tracks / 100)); lia.
Qed.

Lemma batch_contents_witness :
  take 50 (drop 200 (sample_tracks 250)) = take 100 (drop (2 * 100) (sample_tracks 250))
  ∧ length (take 50 (drop 200 (sample_tracks 250)))
    = (if (2 <? length (sample_tracks 250) / 100)%nat
       then 100 else length (sample_tracks 250) `mod` 100)%nat.
Proof.
  apply (batch_contents (sample_tracks 250)
           [take 100 (sample_tracks 250); take 100 (drop 100 (sample_tracks 250));
            take 50 (drop 200 (sample_tracks 250))] 2).
  - vm_compute. lia.
  - vm_compute. reflexivity.
  - reflexivity.
Defined.

Lemma batches_nonempty tracks : batches tracks ≠ [].
Proof.
  unfold batches. destruct (length tracks <=? 100)%nat; [done |].
  rewrite Nat.add_1_r. done.
Qed.

(** X22: against an existing playlist [create_playlist] sends no request
    at all exactly when every desired track is already in the playlist. *)
Theorem existing_playlist_noop_iff PLAYLIST_NAME acct tracks :
  PLAYLIST_NAME ∈ playlist_names acct →
  create_playlist PLAYLIST_NAME acct tracks = Returned []
  ↔ ∀ x, x ∈ tracks → x ∈ playlist_items acct.
Proof.
  intros Hin. unfold create_playlist. rewrite bool_decide_eq_true_2 by done. split.
  - intros H x Hx.
    destruct (decide (x ∈ playlist_items acct)) as [| Hnot]; [done |].
    assert (x ∈ obtain_new_tracks tracks (playlist_items acct)) as Hnew
      by by apply elem_of_obtain_new_tracks.
    destruct (obtain_new_tracks tracks (playlist_items acct)) as [|t new];
      [by apply elem_of_nil in Hnew |].
    rewrite add_items_to_playlist_batches in H.
    change (Returned ?a ≫= ?f) with (f a) in H; cbv beta in H.
    injection H as H. apply map_eq_nil in H. by apply batches_nonempty in H.
  - intros Hall. by rewrite obtain_new_tracks_covered.
Qed.

Lemma existing_playlist_noop_iff_witness :
  create_playlist "Shared songs" (Account ["Shared songs"] ["spotify:track:a"; "spotify:track:b"])
    ["spotify:track:b"; "spotify:track:a"; "spotify:track:b"] = Returned [].
Proof.
  apply (existing_playlist_noop_iff "Shared songs"
           (Account ["Shared songs"] ["spotify:track:a"; "spotify:track:b"])).
  - apply list_elem_of_here.
  - intros x Hx. simpl.
    apply list_elem_of_In in Hx. apply list_elem_of_In. simpl in *. tauto.
Defined.

(** X23: [obtain_playlist_id] answers with the id of the first playlist
    that carries the name, also when later playlists carry it too, and
    with [None] when no playlist in [get_users_playlists] carries it. *)
Theorem obtain_playlist_id_first_match items name :
  (Some name ∉ get_users_playlists items → obtain_playlist_id items name = None)
  ∧ (∀ before item after,
       default [] items = before ++ item :: after →
       Forall (λ entry, entry_name entry ≠ Some name) before →
       entry_name item = Some name →
       obtain_playlist_id items name = entry_id item).
Proof.
  unfold obtain_playlist_id, get_users_playlists. split.
  - induction (default [] items) as [|entry entries IH]; intros Hnot; [done |].
    rewrite fmap_cons in Hnot. apply not_elem_of_cons in Hnot as [Hne Hnot].
    rewrite bool_decide_eq_false_2 by congruence. by apply IH.
  - intros before item after -> Hbefore Hitem.
    induction Hbefore as [|entry before Hentry _ IH]; simpl.
    + by rewrite bool_decide_eq_true_2.
    + by rewrite bool_decide_eq_false_2.
Qed.

Lemma obtain_playlist_id_first_match_witness :
  obtain_playlist_id
    (Some [PlaylistEntry (Some "Liked") (Some "id0");
           PlaylistEntry (Some "Shared songs") (Some "id1");
           PlaylistEntry (Some "Shared songs") (Some "id2")]) "Shared songs"
  = Some "id1".
Proof.
  apply (proj2 (obtain_playlist_id_first_match
                  (Some [PlaylistEntry (Some "Liked") (Some "id0");
                         PlaylistEntry (Some "Shared songs") (Some "id1");
                         PlaylistEntry (Some "Shared songs") (Some "id2")]) "Shared songs")
           [PlaylistEntry (Some "Liked") (Some "id0")]
           (PlaylistEntry (Some "Shared songs") (Some "id1"))
           [PlaylistEntry (Some "Shared songs") (Some "id2")]).
  - reflexivity.
  - repeat constructor. discriminate.
  - reflexivity.
Defined.

End Sync.
